(** * lars: the request context and the dispatcher, verified against their
    specification

    The development follows the two source files of the router:
    - [context.go]: the per-request context [Ctx], its reset
      ([RequestStart]), the parameter lookup ([Param]), the form parsing
      ([ParseForm]), the key/value store ([Set]/[Get]) and the continuation
      primitive ([Next]);
    - [lars.go]: the router instance ([LARS]), its defaults ([New]), the
      default 404 and 405 handlers and the entry point ([serveHTTP]).

    The route tree ([node], [Insert], [Find]), the redirect and the
    response wrapper are not among the source files; they are modelled
    from the specification and every such definition says so.  The
    dispatch takes the lookup of the tree as a parameter. *)

From Stdlib Require Import ZArith String Ascii.
From stdpp Require Import base option list gmap strings.

Open Scope string_scope.
Open Scope list_scope.
Open Scope Z_scope.

(** ** Go values that travel through [interface{}] *)

(** A dynamic value of type string, int, bool or float64, usable as a key of
    the key/value store.  [KFloat x] is a floating-point number that is not
    a NaN: equal numbers have the same [x] (the two zeros are one number);
    [KNaN] is a floating-point NaN.  The nil key and the keys of a type that
    is not comparable are not modelled: [WithValue] or the comparison panics
    on them, depending on the version of the context package. *)
Inductive key : Type :=
  | KString (s : string)
  | KInt (z : Z)
  | KBool (b : bool)
  | KFloat (x : Z)
  | KNaN.

#[global] Instance key_eq_dec : EqDecision key.
Proof. solve_decision. Defined.

(** [k == k'] on two keys boxed in [interface{}]: the same dynamic type and
    equal values; a NaN is different from every value, itself included. *)
Definition key_eq (k k' : key) : bool :=
  match k with
  | KNaN => false
  | _ => bool_decide (k = k')
  end.

(** HTTP method names of [lars.go]. *)
Definition CONNECT : string := "CONNECT".
Definition DELETE : string := "DELETE".
Definition GET : string := "GET".
Definition HEAD : string := "HEAD".
Definition OPTIONS : string := "OPTIONS".
Definition PATCH : string := "PATCH".
Definition POST : string := "POST".
Definition PUT : string := "PUT".
Definition TRACE : string := "TRACE".

Definition ContentType : string := "Content-Type".
Definition Location : string := "Location".
Definition TextPlainCharsetUTF8 : string := "text/plain; charset=utf-8".
Definition blank : string := "".

Definition StatusOK : Z := 200.
Definition StatusMovedPermanently : Z := 301.
Definition StatusTemporaryRedirect : Z := 307.
Definition StatusNotFound : Z := 404.
Definition StatusMethodNotAllowed : Z := 405.

(** [http.StatusText] on the two codes the router names. *)
Definition StatusText (code : Z) : string :=
  if decide (code = StatusNotFound) then "Not Found"
  else if decide (code = StatusMethodNotAllowed) then "Method Not Allowed"
  else blank.

(** ** Transport side: headers, request, response *)

(** [http.Header] and [url.Values]: a map from a name to the values added
    under it, in the order they were added. *)
Abbreviation Values := (gmap string (list string)).

(** [Values.Get]-style read of all the values under a name. *)
Definition values_of (h : Values) (name : string) : list string :=
  default [] (h !! name).

(** [Header.Add] / [Values.Add]: append one value under [name]. *)
Definition Add (name value : string) (h : Values) : Values :=
  <[name := values_of h name ++ [value]]> h.

(** [Header.Set]: replace the values under [name]. *)
Definition SetHeader (name value : string) (h : Values) : Values :=
  <[name := [value]]> h.

(** The part of [*http.Request] the context reads and writes. *)
Record Request : Type := mkRequest {
  Method : string;
  URLPath : string;
  Form : Values
}.

(** The [http.ResponseWriter] handed over by the transport for one request:
    its header map and the body written so far; no status line sent yet. *)
Record ResponseWriter : Type := mkWriter {
  wHeader : Values;
  wBody : list string
}.

(** Modelled from the spec: the [Response] wrapper (type [Response], its
    [reset], [Header], [WriteHeader] and [Write]) is not among the source
    files.  The specification treats the response as an opaque writer on
    which handlers write status, headers and body (sections 1 and 6); it is
    modelled as the record of what has been written, the first status
    written being the one that is sent. *)
Record Response : Type := mkResponse {
  header : Values;
  status : Z;
  committed : bool;
  body : list string
}.

Definition reset (w : ResponseWriter) : Response :=
  {| header := wHeader w; status := StatusOK; committed := false;
     body := wBody w |}.

Definition WriteHeader (code : Z) (r : Response) : Response :=
  if committed r then r
  else {| header := header r; status := code; committed := true;
          body := body r |}.

Definition Write (b : string) (r : Response) : Response :=
  let r := WriteHeader StatusOK r in
  {| header := header r; status := status r; committed := committed r;
     body := body r ++ [b] |}.

Definition with_header (f : Values -> Values) (r : Response) : Response :=
  {| header := f (header r); status := status r; committed := committed r;
     body := body r |}.

(** ** Params: a Go slice of [Param] *)

Record Param : Type := mkParam {
  Key : string;
  Value : string
}.

(** A slice is a window of [len] elements on a backing array; re-slicing to
    [[0:0]] keeps the array and sets the length to zero. *)
Record Params : Type := mkParams {
  backing : list Param;
  len : nat
}.

(** The elements a [range] over the slice visits. *)
Definition elems (p : Params) : list Param := take (len p) (backing p).

(** [p[0:0]] *)
Definition reslice_empty (p : Params) : Params :=
  {| backing := backing p; len := 0 |}.

(** A slice holding exactly [l]. *)
Definition Params_of (l : list Param) : Params :=
  {| backing := l; len := length l |}.


(** ** Go's [int] *)

(** [int] on a 64-bit platform: the values from [int_min] to [int_max];
    arithmetic wraps around. *)
Definition int_min : Z := - 2 ^ 63.
Definition int_max : Z := 2 ^ 63 - 1.

Definition wrap_int (z : Z) : Z := (z - int_min) mod 2 ^ 64 + int_min.

(** [i++] *)
Definition incr_int (i : Z) : Z := wrap_int (i + 1).

(** ** Outcomes of Go code: a state and panic monad *)

(** A run-time panic of the Go runtime. *)
Inductive fault : Type :=
  | IndexOutOfRange (i : Z) (length_ : nat)
  | NilDereference
  | TypeAssertion.

(** The outcome of running Go code on a state [S]: it returns a result and
    leaves a state, or it panics in some state; [OutOfFuel] is the model's
    own answer when the fuel given to [Next] is too small. *)
Inductive outcome (S A : Type) : Type :=
  | Returned (a : A) (s : S)
  | Panicked (f : fault) (s : S)
  | OutOfFuel.
Arguments Returned {S A} a s.
Arguments Panicked {S A} f s.
Arguments OutOfFuel {S A}.

Definition M (S A : Type) : Type := S -> outcome S A.

Definition ret {S A} (a : A) : M S A := fun s => Returned a s.

Definition bind {S A B} (c : M S A) (k : A -> M S B) : M S B :=
  fun s =>
    match c s with
    | Returned a s' => k a s'
    | Panicked f s' => Panicked f s'
    | OutOfFuel => OutOfFuel
    end.

Definition panic {S A} (f : fault) : M S A := fun s => Panicked f s.

(** A state change that cannot fail. *)
Definition modify {S} (f : S -> S) : M S unit := fun s => Returned tt (f s).

Declare Scope go_scope.
Delimit Scope go_scope with go.
Notation "c ;; k" := (bind c (fun _ => k))
  (at level 100, k at level 200, right associativity) : go_scope.

(** A Go pointer or interface value that the model only carries: nil
    ([None]) or the identity of what it refers to. *)
Definition reference : Type := option Z.

(** ** The key/value store: [golang.org/x/net/context] *)

(** [chainMethods], a [map[string]HandlersChain]: the chains of a terminal
    node per method. *)
Abbreviation chainMethods C := (gmap string C).

Section Context_model.

(** [ChainRef] stands for a handler chain held inside a dynamic value (the
    [chainMethods] map the 405 handler reads); [World] is whatever the
    handler closures capture and mutate besides the context. *)
Context {ChainRef World : Type}.


(** A value boxed in [interface{}]; [VNil] is the nil interface. *)
Inductive value : Type :=
  | VNil
  | VString (s : string)
  | VInt (z : Z)
  | VBool (b : bool)
  | VMethods (m : chainMethods ChainRef).

(** [context.Background()] and [context.WithValue(parent, key, val)]: the
    contexts the store of a [Ctx] goes through under [RequestStart], [Set]
    and [WithValue] on a parent that is such a context.  The contexts of
    [WithCancel], [WithDeadline] and [WithTimeout], and a parent that is the
    [Ctx] itself, are not modelled. *)
Inductive GoContext : Type :=
  | Background
  | WithValue (parent : GoContext) (k : key) (val : value).

(** [Context.Value(key)]: the value of the innermost binding whose key is
    [==] to [key], nil when none. *)
Fixpoint ContextValue (c : GoContext) (k : key) : value :=
  match c with
  | Background => VNil
  | WithValue parent k' val =>
      if key_eq k' k then val else ContextValue parent k
  end.

(** [value != nil] *)
Definition is_nil (v : value) : bool :=
  match v with VNil => true | _ => false end.

(** ** The context: [Ctx] of [context.go] *)

(** The fields of [Ctx] a handler reaches through its [Context] argument.
    The [handlers] field is kept beside them, in [Ctx] below: a handler is a
    function of the context, so the chain cannot sit inside the state the
    handler is a function of.  [Context_] is the embedded
    [context.Context]; [RequestStart] sets it before any handler runs, and
    a nil one is not modelled.  [websocket] and [parent] are references the
    context only carries: the connection of an upgraded request, and the
    context as the application wraps it, which [Next] hands to the
    handlers. *)
Record CtxFields : Type := mkFields {
  Context_ : GoContext;
  request : option Request;
  response : Response;
  websocket : reference;
  params : Params;
  parent : reference;
  handlerName : string;
  index : Z;
  formParsed : bool;
  multipartFormParsed : bool
}.

(** What a running chain works on: the context and the captured variables
    of the handler closures. *)
Record Machine : Type := mkMachine {
  ctx : CtxFields;
  world : World
}.

(** [HandlerFunc func(Context)]: the handler receives the context; what it
    gets from it to continue the chain is the continuation primitive
    [c.Next], passed here as the first argument. *)
Definition HandlerFunc : Type := M Machine unit -> M Machine unit.

Definition HandlersChain : Type := list HandlerFunc.

(** [Ctx]: the fields and the resolved chain. *)
Record Ctx : Type := mkCtx {
  fields : CtxFields;
  handlers : HandlersChain
}.

(** *** Field updates *)

Definition set_Context (g : GoContext) (c : CtxFields) : CtxFields :=
  mkFields g (request c) (response c) (websocket c) (params c) (parent c)
    (handlerName c) (index c)
    (formParsed c) (multipartFormParsed c).

Definition set_request (r : option Request) (c : CtxFields) : CtxFields :=
  mkFields (Context_ c) r (response c) (websocket c) (params c) (parent c)
    (handlerName c) (index c)
    (formParsed c) (multipartFormParsed c).

Definition set_response (r : Response) (c : CtxFields) : CtxFields :=
  mkFields (Context_ c) (request c) r (websocket c) (params c) (parent c)
    (handlerName c) (index c)
    (formParsed c) (multipartFormParsed c).

Definition set_params (p : Params) (c : CtxFields) : CtxFields :=
  mkFields (Context_ c) (request c) (response c) (websocket c) p (parent c)
    (handlerName c) (index c)
    (formParsed c) (multipartFormParsed c).

Definition set_index (i : Z) (c : CtxFields) : CtxFields :=
  mkFields (Context_ c) (request c) (response c) (websocket c) (params c)
    (parent c) (handlerName c) i
    (formParsed c) (multipartFormParsed c).

Definition set_formParsed (b : bool) (c : CtxFields) : CtxFields :=
  mkFields (Context_ c) (request c) (response c) (websocket c) (params c)
    (parent c) (handlerName c) (index c) b (multipartFormParsed c).

Definition set_multipartFormParsed (b : bool) (c : CtxFields) : CtxFields :=
  mkFields (Context_ c) (request c) (response c) (websocket c) (params c)
    (parent c) (handlerName c) (index c) (formParsed c) b.

Definition on_ctx (f : CtxFields -> CtxFields) (m : Machine) : Machine :=
  mkMachine (f (ctx m)) (world m).

Definition on_world (f : World -> World) (m : Machine) : Machine :=
  mkMachine (ctx m) (f (world m)).

(** *** [RequestStart] *)

(** The assignments of [RequestStart]; [c.handlers = nil] is the chain of
    the result. *)
Definition RequestStart (w : ResponseWriter) (r : Request) (c : Ctx) : Ctx :=
  let f := fields c in
  let f := set_request (Some r) f in
  let f := set_response (reset w) f in
  let f := set_params (reslice_empty (params f)) f in
  let f := set_Context Background f in
  let f := set_index (-1) f in
  let f := set_formParsed false f in
  let f := set_multipartFormParsed false f in
  mkCtx f [].

(** *** [Ctx.Param] *)

(** The loop of [Param] over the entries of the slice. *)
Fixpoint Param_loop (entries : list Param) (name : string) : string :=
  match entries with
  | [] => blank
  | entry :: rest =>
      if decide (Key entry = name) then Value entry
      else Param_loop rest name
  end.

Definition Ctx_Param (c : CtxFields) (name : string) : string :=
  Param_loop (elems (params c)) name.

(** *** [Ctx.Set] and [Ctx.Get] *)

Definition Ctx_Set (k : key) (v : value) (c : CtxFields) : CtxFields :=
  set_Context (WithValue (Context_ c) k v) c.

Definition Ctx_Get (k : key) (c : CtxFields) : value * bool :=
  let v := ContextValue (Context_ c) k in
  (v, negb (is_nil v)).

(** *** [ParseForm] *)

Section Parse.

(** [http.Request.ParseForm] of the standard library: the request after the
    call and the error it returned, if any. *)
Variable http_ParseForm : Request -> Request * option string.

(** The loop adding every entry of the slice to [request.Form]. *)
Fixpoint add_params (entries : list Param) (form : Values) : Values :=
  match entries with
  | [] => form
  | entry :: rest => add_params rest (Add (Key entry) (Value entry) form)
  end.

Definition set_Form (form : Values) (r : Request) : Request :=
  mkRequest (Method r) (URLPath r) form.

(** [ParseForm]: the returned [error] is [None] for nil.  Calling it on a
    context without a request dereferences a nil pointer. *)
Definition ParseForm : M CtxFields (option string) :=
  fun c =>
    if formParsed c then Returned None c
    else
      match request c with
      | None => Panicked NilDereference c
      | Some r =>
          match http_ParseForm r with
          | (r', Some err) => Returned (Some err) (set_request (Some r') c)
          | (r', None) =>
              let r'' := set_Form (add_params (elems (params c)) (Form r')) r' in
              let c := set_request (Some r'') c in
              Returned None (set_formParsed true c)
          end
      end.

End Parse.

(** *** [Next] *)

(** [c.handlers[i]]: outside [0 <= i < len] the index expression panics. *)
Definition handler_at (hs : HandlersChain) (i : Z) : option HandlerFunc :=
  if decide (i < 0) then None else hs !! Z.to_nat i.

(** [Next]: [c.index++] and then the call of [c.handlers[c.index]] on
    [c.parent], the context as the handlers see it; the model passes the
    context itself.  The handler called may itself call [Next]; [fuel]
    bounds the depth of these nested calls. *)
Fixpoint Next (fuel : nat) (hs : HandlersChain) : M Machine unit :=
  fun m =>
    match fuel with
    | O => OutOfFuel
    | S fuel' =>
        let m := on_ctx (fun c => set_index (incr_int (index c)) c) m in
        match handler_at hs (index (ctx m)) with
        | None => Panicked (IndexOutOfRange (index (ctx m)) (length hs)) m
        | Some h => h (Next fuel' hs) m
        end
    end.

End Context_model.

Arguments value : clear implicits.
Arguments GoContext : clear implicits.
Arguments CtxFields : clear implicits.
Arguments Machine : clear implicits.
Arguments HandlerFunc : clear implicits.
Arguments HandlersChain : clear implicits.
Arguments Ctx : clear implicits.

(** ** The route tree *)

Definition slashByte : ascii := "/"%char.
Definition colonByte : ascii := ":"%char.
Definition startByte : ascii := "*"%char.

(** *** Byte-string helpers of the matching algorithm *)

(** [strip_prefix lbl path]: the rest of [path] after the label, when the
    label matches byte for byte. *)
Fixpoint strip_prefix (lbl path : string) : option string :=
  match lbl, path with
  | EmptyString, _ => Some path
  | String a lbl', String b path' =>
      if decide (a = b) then strip_prefix lbl' path' else None
  | String _ _, EmptyString => None
  end.

(** The longest common prefix of two strings, with what is left of each. *)
Fixpoint common_prefix (a b : string) : string * string * string :=
  match a, b with
  | String x a', String y b' =>
      if decide (x = y) then
        let '(c, ra, rb) := common_prefix a' b' in (String x c, ra, rb)
      else (EmptyString, a, b)
  | _, _ => (EmptyString, a, b)
  end.

(** One path segment: the bytes up to the next [/] or the end, and the
    rest (which starts with that [/], if any). *)
Fixpoint split_segment (s : string) : string * string :=
  match s with
  | EmptyString => (EmptyString, EmptyString)
  | String c s' =>
      if decide (c = slashByte) then (EmptyString, s)
      else let '(seg, rest) := split_segment s' in (String c seg, rest)
  end.

(** The path with its trailing slash toggled. *)
Fixpoint toggle_slash (path : string) : string :=
  match path with
  | EmptyString => String slashByte EmptyString
  | String c EmptyString =>
      if decide (c = slashByte) then EmptyString
      else String c (String slashByte EmptyString)
  | String c rest => String c (toggle_slash rest)
  end.

(** *** Route patterns *)

(** Modelled from the spec: the pattern syntax of section 3 (the registration
    code is not among the source files).  A pattern is a sequence of literal
    runs, parameter segments ([:name], up to the next [/]) and at most one
    trailing wildcard segment ([*name], the rest of the pattern). *)
Inductive segment : Type :=
  | Lit (s : string)
  | Par (name : string)
  | Wild (name : string).

(** A literal run in front of the segments that follow; no empty run. *)
Definition lit_cons (s : string) (ts : list segment) : list segment :=
  match s with
  | EmptyString => ts
  | _ => Lit s :: ts
  end.

(** One pass over the pattern.  [in_param] tells whether the bytes read
    belong to a parameter name; the result is the run of bytes that
    completes the segment in progress and the segments after it. *)
Fixpoint scan (in_param : bool) (q : string) : string * list segment :=
  match q with
  | EmptyString => (EmptyString, [])
  | String c q' =>
      if in_param then
        if decide (c = slashByte) then
          let '(s, ts) := scan false q' in
          (EmptyString, lit_cons (String c s) ts)
        else
          let '(s, ts) := scan true q' in (String c s, ts)
      else if decide (c = colonByte) then
        let '(name, ts) := scan true q' in (EmptyString, Par name :: ts)
      else if decide (c = startByte) then (EmptyString, [Wild q'])
      else
        let '(s, ts) := scan false q' in (String c s, ts)
  end.

Definition segments (pattern : string) : list segment :=
  let '(s, ts) := scan false pattern in lit_cons s ts.

(** Bytes of a literal run: no parameter or wildcard marker. *)
Fixpoint is_literal (s : string) : bool :=
  match s with
  | EmptyString => true
  | String c s' =>
      negb (bool_decide (c = colonByte)) && negb (bool_decide (c = startByte))
      && is_literal s'
  end.

(** Bytes of one path segment: no slash. *)
Fixpoint no_slash (s : string) : bool :=
  match s with
  | EmptyString => true
  | String c s' => negb (bool_decide (c = slashByte)) && no_slash s'
  end.

Section Tree.

(** The handler chain stored at a terminal. *)
Context {H : Type}.

(** Modelled from the spec: the trie node of section 3 (type [node] is not
    among the source files; [New] only shows its [static] field).  A node
    owns its label, the static children keyed by their branching byte, at
    most one parameter child with the parameter name, at most one wildcard
    child (a leaf: its capture name and its chains per method) and, when it
    is a terminal, the chains per method. *)
#[local] Set Warnings "-register-all".
Inductive node : Type :=
  mkNode {
    label : string;
    static : list (ascii * node);
    param : option (string * node);
    wildcard : option (string * gmap string H);
    chains : gmap string H
  }.

(** [&node{static: nodes{}}], the empty root of [New]. *)
Definition empty_node : node := mkNode EmptyString [] None None ∅.

(** The static child keyed by byte [b]. *)
Fixpoint static_child (cs : list (ascii * node)) (b : ascii) : option node :=
  match cs with
  | [] => None
  | (k, c) :: cs' => if decide (k = b) then Some c else static_child cs' b
  end.

(** What a descent reaches: a node where the path is exhausted, with the
    chains that node has per method, the captured parameters and the
    pattern matched; or nothing. *)
Inductive reached : Type :=
  | Reached (ms : gmap string H) (ps : list Param) (pattern : string)
  | Miss.

(** Modelled from the spec: the descent of [Find] as section 4.1 words it
    (the tree code is not among the source files).  The label must match
    byte for byte; at the branch point the static child keyed by the next
    byte is taken if there is one and that decision is final; otherwise the
    parameter child takes one non-empty segment; otherwise the wildcard
    child takes the rest of the path.  Section 8 of the specification also
    wants a path that matches one of two disjoint patterns to find it; a
    descent whose decisions are final does not give that on a segment that
    starts like a static route (see [Find_misses_a_disjoint_pattern]
    below), so this descent does not settle what the router answers
    there. *)
Fixpoint walk (n : node) (path : string) (ps : list Param) (pat : string)
    {struct n} : reached :=
  match n with
  | mkNode lbl st par wild ms =>
      match strip_prefix lbl path with
      | None => Miss
      | Some EmptyString => Reached ms ps (pat +:+ lbl)
      | Some (String b _ as rest) =>
          let try_wildcard :=
            match wild with
            | Some (name, wms) =>
                Reached wms (ps ++ [mkParam name rest])
                  (pat +:+ lbl +:+ String startByte name)
            | None => Miss
            end in
          let try_param :=
            match par with
            | Some (name, c) =>
                let '(seg, after) := split_segment rest in
                match seg with
                | EmptyString => try_wildcard
                | _ =>
                    walk c after (ps ++ [mkParam name seg])
                      (pat +:+ lbl +:+ String colonByte name)
                end
            | None => try_wildcard
            end in
          (fix try_static (cs : list (ascii * node)) : reached :=
             match cs with
             | [] => try_param
             | (k, c) :: cs' =>
                 if decide (k = b) then walk c rest ps (pat +:+ lbl)
                 else try_static cs'
             end) st
      end
  end.

(** The answer of [Find]. *)
Inductive found : Type :=
  | Found (chain : H) (ps : list Param) (pattern : string)
  | NoMatch (allowed : gmap string H) (tsr : bool).

(** Whether some method has a chain at [path]. *)
Definition would_match (root : node) (path : string) : bool :=
  match walk root path [] EmptyString with
  | Reached ms _ _ => bool_decide (ms ≠ ∅)
  | Miss => false
  end.

(** Modelled from the spec: [Find(method, path)] of section 4.1.  When the
    path is exhausted at a node without a chain for [method], the chains of
    the other methods at that node are reported; in every failure the
    answer tells whether the path with its trailing slash toggled would
    match some method. *)
Definition Find (root : node) (method path : string) : found :=
  match walk root path [] EmptyString with
  | Reached ms ps pattern =>
      match ms !! method with
      | Some chain => Found chain ps pattern
      | None => NoMatch ms (would_match root (toggle_slash path))
      end
  | Miss => NoMatch ∅ (would_match root (toggle_slash path))
  end.

(** *** Registration *)

Definition first_byte (s : string) : ascii :=
  match s with
  | String c _ => c
  | EmptyString => Ascii.zero
  end.

(** The outcome of a registration. *)
Inductive inserted : Type :=
  | Inserted (n : node)
  | ConflictingRoute.

Section Insert.

Variable method : string.
Variable chain : H.

(** The branch made for the segments [ts] of a pattern where the tree has
    nothing yet: a node labelled [lbl] and, below it, one node per segment;
    the last one is the terminal for [method]. *)
Fixpoint fresh (lbl : string) (ts : list segment) : node :=
  match ts with
  | [] => mkNode lbl [] None None {[method := chain]}
  | Lit s :: ts' => mkNode lbl [(first_byte s, fresh s ts')] None None ∅
  | Par name :: ts' =>
      mkNode lbl [] (Some (name, fresh EmptyString ts')) None ∅
  | Wild name :: _ => mkNode lbl [] None (Some (name, {[method := chain]})) ∅
  end.

(** The segments [ts] placed below the intermediate node [n] a split has
    just made: none of its children can share a byte with them. *)
Definition attach (n : node) (ts : list segment) : inserted :=
  match ts with
  | [] =>
      Inserted (mkNode (label n) (static n) (param n) (wildcard n)
                  (<[method := chain]> (chains n)))
  | Lit s :: ts' =>
      Inserted (mkNode (label n) (static n ++ [(first_byte s, fresh s ts')])
                  (param n) (wildcard n) (chains n))
  | Par name :: ts' =>
      Inserted (mkNode (label n) (static n)
                  (Some (name, fresh EmptyString ts')) (wildcard n) (chains n))
  | Wild _ :: _ => ConflictingRoute
  end.

(** Modelled from the spec: the walk of [Insert] (section 4.1; the tree
    code is not among the source files).  At a node the longest literal
    prefix shared with the label is consumed; a divergence inside the label
    splits the node; with the label consumed, the end of the pattern marks
    the node as terminal, a parameter marker goes to the parameter child
    (made here, or reused when its name is the same), a wildcard marker to
    the wildcard child, and a literal byte to the static child keyed by it
    (made here when there is none).  A wildcard beside a static or
    parameter child, and two names for one parameter or wildcard child, are
    conflicts. *)
Fixpoint insert (n : node) (ts : list segment) {struct n} : inserted :=
  match n with
  | mkNode lbl st par wild ms =>
      let '(lit, after) :=
        match ts with
        | Lit s :: ts' => (s, ts')
        | _ => (EmptyString, ts)
        end in
      let '(shared, lbl_rest, lit_rest) := common_prefix lbl lit in
      let rest := lit_cons lit_rest after in
      match lbl_rest with
      | String b _ =>
          attach
            (mkNode shared [(b, mkNode lbl_rest st par wild ms)] None None ∅)
            rest
      | EmptyString =>
          match rest with
          | [] => Inserted (mkNode lbl st par wild (<[method := chain]> ms))
          | Par name :: ts' =>
              match wild, par with
              | Some _, _ => ConflictingRoute
              | None, None =>
                  Inserted
                    (mkNode lbl st (Some (name, fresh EmptyString ts')) wild ms)
              | None, Some (name', c) =>
                  if decide (name' = name) then
                    match insert c ts' with
                    | Inserted c' =>
                        Inserted (mkNode lbl st (Some (name', c')) wild ms)
                    | ConflictingRoute => ConflictingRoute
                    end
                  else ConflictingRoute
              end
          | Wild name :: _ =>
              match st, par, wild with
              | [], None, None =>
                  Inserted
                    (mkNode lbl st par (Some (name, {[method := chain]})) ms)
              | [], None, Some (name', wms) =>
                  if decide (name' = name) then
                    Inserted
                      (mkNode lbl st par
                         (Some (name', <[method := chain]> wms)) ms)
                  else ConflictingRoute
              | _, _, _ => ConflictingRoute
              end
          | Lit s :: ts' =>
              match wild with
              | Some _ => ConflictingRoute
              | None =>
                  let b := first_byte s in
                  match
                    (fix place (cs : list (ascii * node))
                       : option (list (ascii * node)) :=
                       match cs with
                       | [] => Some [(b, fresh s ts')]
                       | (k, c) :: cs' =>
                           if decide (k = b) then
                             match insert c (Lit s :: ts') with
                             | Inserted c' => Some ((k, c') :: cs')
                             | ConflictingRoute => None
                             end
                           else
                             match place cs' with
                             | Some cs'' => Some ((k, c) :: cs'')
                             | None => None
                             end
                       end) st
                  with
                  | Some st' => Inserted (mkNode lbl st' par wild ms)
                  | None => ConflictingRoute
                  end
              end
          end
      end
  end.

End Insert.

(** [Insert(method, pattern, chain)] on the tree rooted at [root]. *)
Definition Insert (root : node) (method pattern : string) (chain : H)
    : inserted :=
  insert method chain root (segments pattern).

(** *** The tree of a static route and a parameter route *)

(** The branch point two routes [pre ++ s] and [pre ++ :name] share: the
    node labelled [pre], its static child for [s] and its parameter child
    for [name]. *)
Definition fork_node (method pre s name : string) (c1 c2 : H) : node :=
  mkNode pre
    [(first_byte s, mkNode s [] None None {[method := c1]})]
    (Some (name, mkNode EmptyString [] None None {[method := c2]}))
    None ∅.

(** The tree of these two routes: the root of [New] above the branch
    point. *)
Definition fork_tree (method pre s name : string) (c1 c2 : H) : node :=
  match pre with
  | EmptyString => fork_node method pre s name c1 c2
  | String a _ =>
      mkNode EmptyString [(a, fork_node method pre s name c1 c2)] None None ∅
  end.

End Tree.

Arguments node : clear implicits.
Arguments reached : clear implicits.
Arguments found : clear implicits.
Arguments inserted : clear implicits.

(** ** The router: [lars.go] *)

Section Lars_model.

Context {ChainRef World : Type}.

(** The order in which a [range] over a [chainMethods] map visits its keys.
    Go leaves it unspecified; the theorems assume only that every key is
    visited once. *)
Variable range_keys : chainMethods ChainRef -> list string.

(** A chain as it sits in a [chainMethods] map boxed in [interface{}]. *)
Variable seal : HandlersChain ChainRef World -> ChainRef.

(** [Find(method, path)] of the route tree.  The tree code is not among the
    source files: the dispatch takes the lookup as it is given, and what is
    proved of the dispatch holds for whatever the lookup answers. *)
Variable tree_Find :
  node (HandlersChain ChainRef World) -> string -> string ->
  found (HandlersChain ChainRef World).

(** The fields of [LARS] the dispatch reads; [middleware] is the field of
    the embedded [routeGroup].  [pool] and [newContext] are not fields
    here: the context taken from the pool is an argument of [serveHTTP]. *)
Record LARS : Type := mkLARS {
  middleware : HandlersChain ChainRef World;
  head : node (HandlersChain ChainRef World);
  mostParams : nat;
  http404 : HandlersChain ChainRef World;
  http405 : HandlersChain ChainRef World;
  redirectTrailingSlash : bool;
  handleMethodNotAllowed : bool
}.

Definition newline : string := String (ascii_of_nat 10) EmptyString.

(** [http.Error(w, error, code)] of the standard library. *)
Definition http_Error (error : string) (code : Z) (r : Response) : Response :=
  let r := with_header (SetHeader ContentType TextPlainCharsetUTF8) r in
  let r := with_header (SetHeader "X-Content-Type-Options" "nosniff") r in
  let r := WriteHeader code r in
  Write (error +:+ newline) r.

(** Modelled from the spec: the redirect response of section 4.2 (the
    function that builds it is not among the source files): the target in
    the [Location] header and the status.  What the transport adds to such
    a response (a content type, a body naming the target) is not
    modelled. *)
Definition emit_redirect (url : string) (code : Z) (r : Response) : Response :=
  WriteHeader code (with_header (SetHeader Location url) r).

Definition on_response (f : Response -> Response)
    : M (Machine ChainRef World) unit :=
  modify (on_ctx (fun c => set_response (f (response c)) c)).

(** [default404Handler] *)
Definition default404Handler : HandlerFunc ChainRef World :=
  fun _ => on_response (http_Error (StatusText StatusNotFound) StatusNotFound).

(** The loop [for k := range methods { res.Header().Add("Allow", k) }]. *)
Fixpoint add_allow (ks : list string) (r : Response) : Response :=
  match ks with
  | [] => r
  | k :: ks' => add_allow ks' (with_header (Add "Allow" k) r)
  end.

(** [methodNotAllowedHandler]: the type assertion [m.(chainMethods)] panics
    when the store has no chain map under ["methods"]. *)
Definition methodNotAllowedHandler : HandlerFunc ChainRef World :=
  fun _ m =>
    let '(v, _) := Ctx_Get (KString "methods") (ctx m) in
    match v with
    | VMethods methods =>
        (on_response (add_allow (range_keys methods)) ;;
         on_response (WriteHeader StatusMethodNotAllowed))%go m
    | _ => panic TypeAssertion m
    end.

(** [New] *)
Definition New : LARS :=
  {| middleware := [];
     head := empty_node;
     mostParams := 0;
     http404 := [default404Handler];
     http405 := [methodNotAllowedHandler];
     redirectTrailingSlash := true;
     handleMethodNotAllowed := false |}.

Definition SetRedirectTrailingSlash (set : bool) (l : LARS) : LARS :=
  mkLARS (middleware l) (head l) (mostParams l) (http404 l) (http405 l) set
    (handleMethodNotAllowed l).

Definition SetHandle405MethodNotAllowed (set : bool) (l : LARS) : LARS :=
  mkLARS (middleware l) (head l) (mostParams l) (http404 l) (http405 l)
    (redirectTrailingSlash l) set.

Definition set_head (n : node (HandlersChain ChainRef World)) (l : LARS) : LARS :=
  mkLARS (middleware l) n (mostParams l) (http404 l) (http405 l)
    (redirectTrailingSlash l) (handleMethodNotAllowed l).

(** Modelled from the spec: the status of the redirect (section 4.2):
    permanent-redirect ([301]) for [GET] and [HEAD], temporary-redirect
    ([307]) for the other methods.  No code among the source files computes
    it; the comment on the field [redirectTrailingSlash] of [lars.go] words
    it as [301] for [GET] requests and [307] for all other request
    methods. *)
Definition redirect_code (method : string) : Z :=
  if decide (method = GET) then StatusMovedPermanently
  else if decide (method = HEAD) then StatusMovedPermanently
  else StatusTemporaryRedirect.

(** Modelled from the spec: the handler that emits the redirect to [to] and
    ends the request (section 4.2). *)
Definition redirect (method to : string) : HandlerFunc ChainRef World :=
  fun _ => on_response (emit_redirect to (redirect_code method)).

(** The slice filled with the parameters of a match, in its backing
    array. *)
Definition fill_params (ps : list Param) (p : Params) : Params :=
  {| backing := ps ++ drop (length ps) (backing p); len := length ps |}.

(** Modelled from the spec: the dispatch policy of section 4.2, the method
    [LARS.Find] that [serveHTTP] calls (not among the source files).  A
    match installs its chain and parameters; without a match, a path that
    matches with its trailing slash toggled is redirected when redirection
    is enabled; otherwise, when another method has a chain at the path and
    405 handling is enabled, the chains of that node are stored under
    ["methods"] (the key [methodNotAllowedHandler] reads) and the 405 chain
    is installed; otherwise the 404 chain is. *)
Definition LARS_Find (l : LARS) (c : Ctx ChainRef World) : Ctx ChainRef World :=
  match request (fields c) with
  | None => mkCtx (fields c) (http404 l)
  | Some r =>
      match tree_Find (head l) (Method r) (URLPath r) with
      | Found chain ps _ =>
          mkCtx (set_params (fill_params ps (params (fields c))) (fields c))
            chain
      | NoMatch allowed tsr =>
          if redirectTrailingSlash l && tsr then
            mkCtx (fields c) [redirect (Method r) (toggle_slash (URLPath r))]
          else if handleMethodNotAllowed l && bool_decide (allowed ≠ ∅) then
            mkCtx
              (Ctx_Set (KString "methods") (VMethods (seal <$> allowed))
                 (fields c))
              (http405 l)
          else mkCtx (fields c) (http404 l)
      end
  end.

(** [serveHTTP]: the context [c] comes from the pool; it is reset against
    the request, routed, and its chain is started.  [c.Reset(w, r)] of
    [lars.go] is the reset that [context.go] names [RequestStart]. *)
Definition serveHTTP (fuel : nat) (l : LARS) (c : Ctx ChainRef World)
    (w : ResponseWriter) (r : Request) (wd : World)
    : outcome (Machine ChainRef World) unit :=
  let c := RequestStart w r c in
  let c := LARS_Find l c in
  Next fuel (handlers c) (mkMachine (fields c) wd).

End Lars_model.

Arguments LARS : clear implicits.

(** ** Scenarios the statements below run *)

Section Scenarios.

Context {ChainRef : Type}.

(** A request's calls of [Set], first call first. *)
Fixpoint set_all (sets : list (key * value ChainRef)) (c : CtxFields ChainRef)
    : CtxFields ChainRef :=
  match sets with
  | [] => c
  | (k, v) :: rest => set_all rest (Ctx_Set k v c)
  end.

Context {E : Type}.

(** A handler closure appending an event to the log it captured. *)
Definition record (e : E) : M (Machine ChainRef (list E)) unit :=
  modify (on_world (fun log => log ++ [e])).

(** A middleware: an event, the rest of the chain through [Next], an
    event. *)
Definition wrapping (enter exit : E) : HandlerFunc ChainRef (list E) :=
  fun next => (record enter ;; next ;; record exit)%go.

(** A handler that records its entry and never calls [Next]. *)
Definition stopping (enter : E) : HandlerFunc ChainRef (list E) :=
  fun _ => record enter.

(** A last handler: two events and no call of [Next]. *)
Definition final (enter exit : E) : HandlerFunc ChainRef (list E) :=
  fun _ => (record enter ;; record exit)%go.

End Scenarios.

(** A transport writer on which nothing has been written. *)
Definition blank_writer : ResponseWriter := mkWriter ∅ [].

(** A context as a finished request leaves it in the pool: one parameter,
    one entry in the store, a committed response, the cursor on the
    handler that ran, the form parsed. *)
Definition pooled_ctx : Ctx unit (list string) :=
  {| fields :=
       {| Context_ :=
            WithValue Background (KString "user") (VString "alice");
          request := Some (mkRequest POST "/users/7" ∅);
          response := WriteHeader StatusOK (reset blank_writer);
          websocket := None;
          params := Params_of [mkParam "id" "7"];
          parent := None;
          handlerName := blank;
          index := 0;
          formParsed := true;
          multipartFormParsed := false |};
     handlers := [final "enter" "exit"] |}.

(** The same context after a request that was upgraded to a websocket and
    served through a wrapping context: it holds the connection and the
    wrapper. *)
Definition upgraded_ctx : Ctx unit (list string) :=
  {| fields :=
       {| Context_ := Context_ (fields pooled_ctx);
          request := request (fields pooled_ctx);
          response := response (fields pooled_ctx);
          websocket := Some 1;
          params := params (fields pooled_ctx);
          parent := Some 2;
          handlerName := "main.chat";
          index := index (fields pooled_ctx);
          formParsed := formParsed (fields pooled_ctx);
          multipartFormParsed := multipartFormParsed (fields pooled_ctx) |};
     handlers := handlers pooled_ctx |}.

(** The fields of that context reset for [GET /]. *)
Definition fresh_ctx : CtxFields unit :=
  fields (RequestStart blank_writer (mkRequest GET "/" ∅) pooled_ctx).

(** The same with the cursor at [i]. *)
Definition ctx_at (i : Z) : CtxFields unit := set_index i fresh_ctx.

(** The empty log of events. *)
Definition no_events : list string := [].

(** *** Concrete requests and routers *)

(** A request's own [ParseForm] that finds the query [q=go]. *)
Definition parse_query (r : Request) : Request * option string :=
  (set_Form {["q" := ["go"]]} r, None).

(** A context routed to [/search/:q] with [q = lars]. *)
Definition search_ctx : CtxFields unit :=
  set_params (Params_of [mkParam "q" "lars"])
    (set_request (Some (mkRequest GET "/search/lars" ∅)) (ctx_at (-1))).

(** A [range] that visits the keys in the order of [elements]. *)
Definition range_elements (ms : chainMethods unit) : list string :=
  elements (dom ms).

(** The chains of [/widgets]: one for [GET], one for [POST]. *)
Definition widgets_methods : chainMethods unit :=
  {[ GET := tt; POST := tt ]}.

(** A context reset for [DELETE /widgets], with the chains of the node
    stored under ["methods"]. *)
Definition widgets_ctx : CtxFields unit :=
  Ctx_Set (KString "methods") (VMethods widgets_methods)
    (fields (RequestStart blank_writer (mkRequest DELETE "/widgets" ∅)
               pooled_ctx)).

(** Boxing a chain into a dynamic value keeps nothing of it. *)
Definition seal_unit (_ : HandlersChain unit (list string)) : unit := tt.

(** A route added to the tree of a router; a conflicting route would be
    left out (the routers below have none). *)
Definition with_route (method pattern : string)
    (chain : HandlersChain unit (list string))
    (l : LARS unit (list string)) : LARS unit (list string) :=
  match Insert (head l) method pattern chain with
  | Inserted n => set_head n l
  | ConflictingRoute => l
  end.

(** The router of [New] with one route, [GET /foo], whose handler records
    two events. *)
Definition foo_router : LARS unit (list string) :=
  with_route GET "/foo" [final "enter" "exit"] (New range_elements).

(** The router of [New] with [GET /widgets] and [POST /widgets]. *)
Definition widgets_router : LARS unit (list string) :=
  with_route POST "/widgets" [final "post" "done"]
    (with_route GET "/widgets" [final "get" "done"] (New range_elements)).

(** One more registration on the outcome of the registrations before. *)
Definition and_then (t : inserted string) (method pattern chain : string)
    : inserted string :=
  match t with
  | Inserted n => Insert n method pattern chain
  | ConflictingRoute => ConflictingRoute
  end.

(** A tree with a static, a parameter and a wildcard route. *)
Definition sample_tree : inserted string :=
  and_then
    (and_then (Insert empty_node GET "/foo" "foo")
       POST "/users/:id/posts" "posts")
    GET "/files/*rest" "files".

(** [Find] on the outcome of registrations. *)
Definition Find_in (t : inserted string) (method path : string)
    : option (found string) :=
  match t with
  | Inserted n => Some (Find n method path)
  | ConflictingRoute => None
  end.

(** * More of [context.go] and [lars.go] *)

(** ** Media types and header names of [lars.go] *)

Definition CharsetUTF8 : string := "charset=utf-8".
Definition ApplicationJSON : string := "application/json".
Definition ApplicationJSONCharsetUTF8 : string :=
  ApplicationJSON +:+ "; " +:+ CharsetUTF8.
Definition ApplicationJavaScript : string := "application/javascript".
Definition ApplicationJavaScriptCharsetUTF8 : string :=
  ApplicationJavaScript +:+ "; " +:+ CharsetUTF8.
Definition ApplicationXML : string := "application/xml".
Definition ApplicationXMLCharsetUTF8 : string :=
  ApplicationXML +:+ "; " +:+ CharsetUTF8.
Definition XForwardedFor : string := "X-Forwarded-For".
Definition XRealIP : string := "X-Real-IP".

(** ** Functions of Go's [strings] package on byte strings *)

(** [strings.IndexByte(s, c)]: the index of the first [c], [-1] without. *)
Fixpoint strings_IndexByte (s : string) (c : ascii) : Z :=
  match s with
  | EmptyString => -1
  | String b s' =>
      if decide (b = c) then 0
      else
        let i := strings_IndexByte s' c in
        if decide (i < 0) then -1 else i + 1
  end.

(** [s[0:n]] for [0 <= n <= len(s)]. *)
Definition slice_to (s : string) (n : Z) : string :=
  substring 0 (Z.to_nat n) s.

(** [strings.Split(s, sep)] for a separator of one byte: the pieces
    between the separators, one more than there are separators. *)
Fixpoint strings_Split (s : string) (sep : ascii) : list string :=
  match s with
  | EmptyString => [EmptyString]
  | String c s' =>
      if decide (c = sep) then EmptyString :: strings_Split s' sep
      else
        match strings_Split s' sep with
        | piece :: pieces => String c piece :: pieces
        | [] => [String c EmptyString]
        end
  end.

(** [strings.SplitN(s, sep, 2)] for a separator of one byte: the text
    before the first separator and, if there is one, the text after it. *)
Fixpoint strings_SplitN2 (s : string) (sep : ascii) : list string :=
  match s with
  | EmptyString => [EmptyString]
  | String c s' =>
      if decide (c = sep) then [EmptyString; s']
      else
        match strings_SplitN2 s' sep with
        | piece :: pieces => String c piece :: pieces
        | [] => [String c EmptyString]
        end
  end.

(** [strings.TrimLeft], [strings.TrimRight] and [strings.Trim] for a
    cutset of one ASCII byte. *)
Fixpoint strings_TrimLeft (s : string) (cut : ascii) : string :=
  match s with
  | EmptyString => EmptyString
  | String c s' => if decide (c = cut) then strings_TrimLeft s' cut else s
  end.

Fixpoint strings_TrimRight (s : string) (cut : ascii) : string :=
  match s with
  | EmptyString => EmptyString
  | String c s' =>
      match strings_TrimRight s' cut with
      | EmptyString =>
          if decide (c = cut) then EmptyString else String c EmptyString
      | t => String c t
      end
  end.

Definition strings_Trim (s : string) (cut : ascii) : string :=
  strings_TrimRight (strings_TrimLeft s cut) cut.

Definition spaceByte : ascii := " "%char.
Definition commaByte : ascii := ","%char.
Definition semicolonByte : ascii := ";"%char.

(** [Header.Get(name)] for a canonical name: the first value, blank
    without. *)
Definition Header_Get (h : Values) (name : string) : string :=
  match values_of h name with
  | v :: _ => v
  | [] => blank
  end.

(** *** Canonical header names: [net/textproto] *)

(** The bytes of an HTTP token, the bytes a header name is made of. *)
Definition is_token_byte (c : ascii) : bool :=
  let n := nat_of_ascii c in
  ((65 <=? n) && (n <=? 90) || (97 <=? n) && (n <=? 122)
   || (48 <=? n) && (n <=? 57)
   || existsb (Nat.eqb n)
        [33; 35; 36; 37; 38; 39; 42; 43; 45; 46; 94; 95; 96; 124; 126])%nat.

Fixpoint all_token_bytes (s : string) : bool :=
  match s with
  | EmptyString => true
  | String c s' => is_token_byte c && all_token_bytes s'
  end.

(** One byte of the canonical form: a lower-case letter where an upper-case
    one is due is raised, an upper-case letter elsewhere is lowered. *)
Definition canonical_byte (upper : bool) (c : ascii) : ascii :=
  let n := nat_of_ascii c in
  if (upper && (97 <=? n) && (n <=? 122))%nat then ascii_of_nat (n - 32)
  else if (negb upper && (65 <=? n) && (n <=? 90))%nat then
    ascii_of_nat (n + 32)
  else c.

(** The loop of [canonicalMIMEHeaderKey]: upper case is due at the first
    byte and after each hyphen. *)
Fixpoint canonical_loop (upper : bool) (s : string) : string :=
  match s with
  | EmptyString => EmptyString
  | String c s' =>
      let c := canonical_byte upper c in
      String c (canonical_loop (bool_decide (c = "-"%char)) s')
  end.

(** [textproto.CanonicalMIMEHeaderKey]: a name holding a byte that is not a
    token byte is returned as it is. *)
Definition CanonicalMIMEHeaderKey (s : string) : string :=
  if all_token_bytes s then canonical_loop true s else s.

(** [Header.Set(key, value)] of [net/http] on any key: the values are
    stored under the canonical form of the key.  [SetHeader] above is this
    function on the keys the router sets, which are canonical. *)
Definition Header_Set (name value : string) (h : Values) : Values :=
  <[CanonicalMIMEHeaderKey name := [value]]> h.

(** A header map whose keys are all canonical, as the server of [net/http]
    makes the map of a request it has parsed and as [Header.Set] and
    [Header.Add] keep it. *)
Definition canonical_keys (h : Values) : Prop :=
  map_Forall (fun k _ => CanonicalMIMEHeaderKey k = k) h.

(** ** The rest of the context *)

Section Context_more.

Context {ChainRef : Type}.

(** [HandlerName] *)
Definition HandlerName (c : CtxFields ChainRef) : string := handlerName c.

(** [WebSocket] *)
Definition WebSocket (c : CtxFields ChainRef) : reference := websocket c.

(** [Ctx.WithValue(parent, key, val)]: the embedded context becomes
    [context.WithValue(parent, key, val)], which is also the result. *)
Definition Ctx_WithValue (parent : GoContext ChainRef) (k : key)
    (val : value ChainRef) (c : CtxFields ChainRef)
    : GoContext ChainRef * CtxFields ChainRef :=
  let g := WithValue parent k val in (g, set_Context g c).

Section ParseMultipart.

(** [http.Request.ParseMultipartForm] of the standard library: the request
    after the call and the error it returned, if any. *)
Variable http_ParseMultipartForm : Z -> Request -> Request * option string.

(** [ParseMultipartForm(maxMemory)] *)
Definition ParseMultipartForm (maxMemory : Z)
    : M (CtxFields ChainRef) (option string) :=
  fun c =>
    if multipartFormParsed c then Returned None c
    else
      match request c with
      | None => Panicked NilDereference c
      | Some r =>
          match http_ParseMultipartForm maxMemory r with
          | (r', Some err) => Returned (Some err) (set_request (Some r') c)
          | (r', None) =>
              let r'' := set_Form (add_params (elems (params c)) (Form r')) r' in
              let c := set_request (Some r'') c in
              Returned None (set_multipartFormParsed true c)
          end
      end.

End ParseMultipart.

End Context_more.

(** *** [ClientIP] *)

Section ClientIP_model.

(** [strings.TrimSpace] and the host that [net.SplitHostPort] returns (blank
    on an error), both of the standard library. *)
Variable TrimSpace : string -> string.
Variable SplitHostPort_host : string -> string.

(** [ClientIP], on the header and the [RemoteAddr] of the request. *)
Definition ClientIP (Header : Values) (RemoteAddr : string) : string :=
  let from_remote := SplitHostPort_host (TrimSpace RemoteAddr) in
  let from_forwarded :=
    match values_of Header XForwardedFor with
    | v0 :: _ =>
        let clientIP := v0 in
        let index := strings_IndexByte clientIP commaByte in
        let clientIP :=
          if decide (index >= 0) then slice_to clientIP index else clientIP in
        let clientIP := TrimSpace clientIP in
        if decide (clientIP <> blank) then clientIP else from_remote
    | [] => from_remote
    end in
  match values_of Header XRealIP with
  | v0 :: _ =>
      let clientIP := TrimSpace v0 in
      if decide (clientIP <> blank) then clientIP else from_forwarded
  | [] => from_forwarded
  end.

End ClientIP_model.

(** *** [AcceptedLanguages] *)

Section AcceptedLanguages_model.

(** The header name [AcceptedLanguage] (its declaration is not among the
    source files) and [strings.ToLower] of the standard library. *)
Variable AcceptedLanguage : string.
Variable ToLower : string -> string.

(** [locale[0]] of [strings.SplitN(option, ";", 2)]. *)
Definition locale_0 (option_ : string) : string :=
  match strings_SplitN2 option_ semicolonByte with
  | l0 :: _ => l0
  | [] => blank
  end.

(** [AcceptedLanguages(lowercase)], on the header of the request. *)
Definition AcceptedLanguages (Header : Values) (lowercase : bool)
    : list string :=
  let accepted := Header_Get Header AcceptedLanguage in
  if decide (accepted = blank) then []
  else
    let options := strings_Split accepted commaByte in
    if lowercase then
      (fun o => ToLower (strings_Trim (locale_0 o) spaceByte)) <$> options
    else (fun o => strings_Trim (locale_0 o) spaceByte) <$> options.

End AcceptedLanguages_model.

(** *** The response helpers *)

Section Response_helpers.

(** The value marshalled, [json.Marshal] and [xml.Marshal] of the standard
    library (the bytes, or the error), and [Response.Write] (not among the
    source files): the response after the write and the error, if any. *)
Context {V : Type}.
Variable json_Marshal : V -> string + string.
Variable xml_Marshal : V -> string + string.
Variable response_Write : string -> Response -> Response * option string.

(** [xml.Header] *)
Definition xml_Header : string :=
  "<?xml version=" +:+ String (ascii_of_nat 34) "1.0"
  +:+ String (ascii_of_nat 34) " encoding="
  +:+ String (ascii_of_nat 34) "UTF-8"
  +:+ String (ascii_of_nat 34) "?>" +:+ String (ascii_of_nat 10) "".

(** [JSONBytes(code, b)] *)
Definition JSONBytes (code : Z) (b : string) (r : Response)
    : Response * option string :=
  let r := with_header (SetHeader ContentType ApplicationJSONCharsetUTF8) r in
  let r := WriteHeader code r in
  response_Write b r.

(** [JSON(code, i)] *)
Definition JSON (code : Z) (i : V) (r : Response) : Response * option string :=
  match json_Marshal i with
  | inr err => (r, Some err)
  | inl b => JSONBytes code b r
  end.

(** [JSONP(code, i, callback)] *)
Definition JSONP (code : Z) (i : V) (callback : string) (r : Response)
    : Response * option string :=
  match json_Marshal i with
  | inr e => (r, Some e)
  | inl b =>
      let r :=
        with_header (SetHeader ContentType ApplicationJavaScriptCharsetUTF8) r in
      let r := WriteHeader code r in
      match response_Write (callback +:+ "(") r with
      | (r, Some err) => (r, Some err)
      | (r, None) =>
          match response_Write b r with
          | (r, Some err) => (r, Some err)
          | (r, None) => response_Write ");" r
          end
      end
  end.

(** [XMLBytes(code, b)] *)
Definition XMLBytes (code : Z) (b : string) (r : Response)
    : Response * option string :=
  let r := with_header (SetHeader ContentType ApplicationXMLCharsetUTF8) r in
  let r := WriteHeader code r in
  match response_Write xml_Header r with
  | (r, Some err) => (r, Some err)
  | (r, None) => response_Write b r
  end.

(** [XML(code, i)] *)
Definition XML (code : Z) (i : V) (r : Response) : Response * option string :=
  match xml_Marshal i with
  | inr err => (r, Some err)
  | inl b => XMLBytes code b r
  end.

(** [TextBytes(code, b)] and [Text(code, s)] *)
Definition TextBytes (code : Z) (b : string) (r : Response)
    : Response * option string :=
  let r := with_header (SetHeader ContentType TextPlainCharsetUTF8) r in
  let r := WriteHeader code r in
  response_Write b r.

Definition Text (code : Z) (s : string) (r : Response)
    : Response * option string :=
  TextBytes code s r.

End Response_helpers.

(** ** The rest of the router *)

Section Lars_more.

Context {ChainRef World : Type}.

(** [Handler] is [interface{}]; [wrapHandler] (not among the source files)
    turns one into a [HandlerFunc]. *)
Context {Handler : Type}.
Variable wrapHandler : Handler -> HandlerFunc ChainRef World.


End Lars_more.

(** ** More handlers for the statements *)

Section More_scenarios.

Context {ChainRef E : Type}.

(** A handler that records events and does not call [Next]. *)
Definition recording (events : list E) : HandlerFunc ChainRef (list E) :=
  fun _ => modify (on_world (fun log => log ++ events)).

(** A handler that calls [Next] twice. *)
Definition calling_twice : HandlerFunc ChainRef (list E) :=
  fun next => (next ;; next)%go.

(** The middlewares of a list of enter and exit events. *)
Definition wrappings (pairs : list (E * E)) : HandlersChain ChainRef (list E) :=
  (fun p => wrapping p.1 p.2) <$> pairs.

End More_scenarios.

(** What [strings.TrimSpace] returns on a string whose only white space
    is the space byte. *)
Definition trim_spaces (s : string) : string := strings_Trim s spaceByte.

(** A stand-in for [net.SplitHostPort]: the text before the first colon. *)
Definition host_before_colon (s : string) : string :=
  match strings_SplitN2 s colonByte with
  | h :: _ => h
  | [] => blank
  end.

(** ** Vocabulary of the statements on these functions *)

(** Whether the byte [c] occurs in [s], and how often. *)
Fixpoint has_byte (c : ascii) (s : string) : bool :=
  match s with
  | EmptyString => false
  | String b s' => bool_decide (b = c) || has_byte c s'
  end.

Fixpoint count_byte (c : ascii) (s : string) : nat :=
  match s with
  | EmptyString => O
  | String b s' => (if decide (b = c) then 1 else 0) + count_byte c s'
  end.

(** Whether [s] starts, or ends, with the byte [c]. *)
Definition starts_with (c : ascii) (s : string) : bool :=
  match s with
  | EmptyString => false
  | String b _ => bool_decide (b = c)
  end.

Fixpoint ends_with (c : ascii) (s : string) : bool :=
  match s with
  | EmptyString => false
  | String b EmptyString => bool_decide (b = c)
  | String _ s' => ends_with c s'
  end.

(** [n] times the byte [c]. *)
Fixpoint repeat_byte (c : ascii) (n : nat) : string :=
  match n with
  | O => EmptyString
  | S n' => String c (repeat_byte c n')
  end.

(** The pieces joined by commas. *)
Fixpoint join_commas (pieces : list string) : string :=
  match pieces with
  | [] => EmptyString
  | [p] => p
  | p :: rest => p +:+ String commaByte (join_commas rest)
  end.

(** One option of an [Accept-Language] header: a language tag between
    spaces, with or without parameters after a semicolon. *)
Record language_option : Type := mkOption {
  lead : nat;
  tag : string;
  trail : nat;
  parameters : option string
}.

Definition render_option (o : language_option) : string :=
  repeat_byte spaceByte (lead o) +:+ tag o +:+ repeat_byte spaceByte (trail o)
  +:+ match parameters o with
      | Some q => String semicolonByte q
      | None => EmptyString
      end.

(** A tag the header can carry as it is: not empty, without comma or
    semicolon, without a space at either end. *)
Definition clean_tag (t : string) : bool :=
  negb (bool_decide (t = EmptyString))
  && negb (has_byte commaByte t) && negb (has_byte semicolonByte t)
  && negb (starts_with spaceByte t) && negb (ends_with spaceByte t).

Definition clean_option (o : language_option) : bool :=
  clean_tag (tag o)
  && match parameters o with
     | Some q => negb (has_byte commaByte q)
     | None => true
     end.


(** The first hop [first] of a header value, with or without hops after a
    comma. *)
Definition with_hops (first : string) (others : option string) : string :=
  first +:+ match others with
            | Some o => String commaByte o
            | None => EmptyString
            end.

(** The response as the body helpers hand it to the first write. *)
Definition ready (contentType : string) (code : Z) (r : Response) : Response :=
  WriteHeader code (with_header (SetHeader ContentType contentType) r).


Section Exits.

Context {ChainRef E : Type}.

(** The exit events that middlewares record once the handlers after
    them have returned; a panic below them is passed on. *)
Definition then_exits (exits : list E)
    (o : outcome (Machine ChainRef (list E)) unit)
    : outcome (Machine ChainRef (list E)) unit :=
  match o with
  | Returned _ m => Returned tt (on_world (fun log => log ++ exits) m)
  | Panicked f m => Panicked f m
  | OutOfFuel => OutOfFuel
  end.

End Exits.

(** *** Concrete inputs of the statements *)

(** A request's own [ParseForm] that fails. *)
Definition parse_fails (r : Request) : Request * option string :=
  (r, Some "malformed form").

(** A request's own [ParseMultipartForm] that finds no part and keeps the
    form. *)
Definition parse_no_parts (_ : Z) (r : Request) : Request * option string :=
  (r, None).

(** A marshaller that fails, one that answers [{}], and a write that
    appends to the body. *)
Definition marshal_fails (_ : unit) : string + string :=
  inr "unsupported type".

Definition marshal_empty (_ : unit) : string + string := inl "{}".

Definition write_body (b : string) (r : Response) : Response * option string :=
  (Write b r, None).

(** Headers of a request behind a proxy that sets [X-Forwarded-For], as
    [net/http] holds them, and of a browser. *)
Definition proxy_header : Values :=
  {[ XForwardedFor := ["203.0.113.7"] ]}.

Definition forwarded_header : Values :=
  {[ XForwardedFor := ["203.0.113.7, 10.0.0.2"] ]}.

Definition language_header : Values :=
  {[ "Accept-Language" := ["en-US, fr ;q=0.8"] ]}.

(** * Properties of [context.go] *)

Section Context_facts.

Context {ChainRef World : Type}.

Implicit Types (c : CtxFields ChainRef) (m : Machine ChainRef World)
  (hs : HandlersChain ChainRef World).

Lemma wrap_int_in_range (z : Z) :
  int_min <= z <= int_max -> wrap_int z = z.
Proof.
  unfold wrap_int, int_min, int_max. intros Hz.
  rewrite Z.mod_small by lia. lia.
Qed.

Lemma incr_int_below_max (i : Z) :
  int_min <= i < int_max -> incr_int i = i + 1.
Proof.
  intros Hi. unfold incr_int. apply wrap_int_in_range.
  unfold int_min, int_max in *. lia.
Qed.

Lemma incr_int_at_max : incr_int int_max = int_min.
Proof. reflexivity. Qed.

Lemma handler_at_out_of_range hs (i : Z) :
  i < 0 \/ Z.of_nat (length hs) <= i -> handler_at hs i = None.
Proof.
  intros Hi. unfold handler_at.
  destruct (decide (i < 0)) as [|Hnn]; [reflexivity|].
  apply lookup_ge_None_2. lia.
Qed.

(** C1 (as the code has it).  With the cursor on or past the last handler of
    the chain, [Next] calls no handler, but it is not a no-op: it advances
    the cursor and the index expression [c.handlers[c.index]] panics with
    an index out of range.  Nothing else of the context and nothing of the
    captured state changes. *)
Theorem Next_past_end_panics (fuel : nat) hs m :
  int_min <= index (ctx m) <= int_max ->
  Z.of_nat (length hs) - 1 <= index (ctx m) ->
  Next (S fuel) hs m =
    Panicked (IndexOutOfRange (incr_int (index (ctx m))) (length hs))
      (mkMachine (set_index (incr_int (index (ctx m))) (ctx m)) (world m)).
Proof.
  intros Hint Hi. simpl.
  rewrite handler_at_out_of_range; [reflexivity|]. simpl.
  destruct (decide (index (ctx m) = int_max)) as [->|Hmax].
  - left. rewrite incr_int_at_max. reflexivity.
  - right. rewrite incr_int_below_max by lia. lia.
Qed.

(** C2.  Whatever the pooled context held, after [RequestStart] the
    parameter slice has length zero (no name has a value), the key/value
    store is the empty background context (no key has a value), the cursor
    is before the first handler, and the chain and the two parsed-form
    flags are cleared. *)
Theorem RequestStart_resets (w : ResponseWriter) (r : Request)
    (c0 : Ctx ChainRef World) :
  len (params (fields (RequestStart w r c0))) = 0%nat /\
  elems (params (fields (RequestStart w r c0))) = [] /\
  (forall name, Ctx_Param (fields (RequestStart w r c0)) name = blank) /\
  Context_ (fields (RequestStart w r c0)) = Background /\
  (forall k, Ctx_Get k (fields (RequestStart w r c0)) = (VNil, false)) /\
  index (fields (RequestStart w r c0)) = -1 /\
  handlers (RequestStart w r c0) = [] /\
  formParsed (fields (RequestStart w r c0)) = false /\
  multipartFormParsed (fields (RequestStart w r c0)) = false /\
  request (fields (RequestStart w r c0)) = Some r.
Proof. repeat split. Qed.

(** *** The key/value store *)

Lemma key_eq_refl (k : key) : k <> KNaN -> key_eq k k = true.
Proof.
  intros Hk. destruct k; simpl; try (apply bool_decide_eq_true; reflexivity).
  congruence.
Qed.

Lemma key_eq_other (k k' : key) : k' <> k -> key_eq k' k = false.
Proof.
  intros Hne. destruct k'; simpl; try reflexivity;
    apply bool_decide_eq_false; assumption.
Qed.

Lemma key_eq_NaN_r (k : key) : key_eq k KNaN = false.
Proof. destruct k; reflexivity. Qed.


Lemma Get_Set_other (k k' : key) (v : value ChainRef) c :
  k' <> k -> Ctx_Get k (Ctx_Set k' v c) = Ctx_Get k c.
Proof.
  intros Hne. unfold Ctx_Get, Ctx_Set; simpl.
  rewrite key_eq_other by assumption. reflexivity.
Qed.







End Context_facts.

(** *** Witnesses and counterexamples on concrete contexts *)

(** C1: the theorem at a chain of one handler with the cursor on it. *)
Lemma Next_past_end_panics_witness :
  Z.of_nat (length [@stopping unit string "h1"]) - 1
    <= index (ctx (mkMachine (ctx_at 0) no_events)) /\
  Next 1 [stopping "h1"] (mkMachine (ctx_at 0) no_events) =
    Panicked (IndexOutOfRange 1 1)
      (mkMachine (set_index 1 (ctx_at 0)) no_events).
Proof.
  split; [simpl; lia|].
  apply (Next_past_end_panics 0 [stopping "h1"]
           (mkMachine (ctx_at 0) no_events)).
  - split; discriminate.
  - simpl; lia.
Defined.

(** C1 fails as stated: with the cursor on the last handler, no amount of
    fuel makes [Next] return; the call is not a no-op. *)
Lemma Next_past_end_not_noop :
  ~ exists fuel m',
      Next fuel [@stopping unit string "h1"]
        (mkMachine (ctx_at 0) no_events) = Returned tt m'.
Proof.
  intros (fuel & m' & Hrun). destruct fuel; simpl in Hrun; discriminate.
Qed.

(** The pooled context holds [id = 7] and [user = alice] from the request
    before; reset for the next request, it shows neither. *)
Example RequestStart_on_used_context :
  Ctx_Param (fields pooled_ctx) "id" = "7" /\
  Ctx_Get (KString "user") (fields pooled_ctx) = (VString "alice", true) /\
  Ctx_Param fresh_ctx "id" = blank /\
  Ctx_Get (KString "user") fresh_ctx = (VNil, false) /\
  elems (params fresh_ctx) = [] /\
  backing (params fresh_ctx) = [mkParam "id" "7"] /\
  index fresh_ctx = -1.
Proof. repeat split. Qed.



(** A NaN key stored by [Set] with a value other than nil is reported with
    [exists = false] too: no key is [==] to it. *)
Example Get_after_Set_NaN_reports_absent :
  Ctx_Get KNaN (Ctx_Set KNaN (VString "x") fresh_ctx) = (@VNil unit, false).
Proof. reflexivity. Qed.

(** *** The order of a chain *)

Section Chain_order.

Context {ChainRef E : Type}.

Implicit Types (c : CtxFields ChainRef) (log : list E).

(** C5 (as the code has it).  From the before-first cursor, two middlewares
    that record an event, call [Next] once and record an event, followed by
    a last handler that records its two events without calling [Next],
    produce enter1, enter2, enter3, exit3, exit2, exit1.  When the third
    handler calls [Next] as well, that call advances the cursor past the
    chain and panics after enter1, enter2, enter3: no exit event is
    recorded.  When the second handler never calls [Next], the order is
    enter1, enter2, exit1 and the third handler, whatever it is, is not
    called. *)
Theorem Next_three_handlers (fuel : nat) (e1 x1 e2 x2 e3 x3 : E)
    (h3 : HandlerFunc ChainRef (list E)) c log :
  index c = -1 ->
  Next (3 + fuel) [wrapping e1 x1; wrapping e2 x2; final e3 x3]
      (mkMachine c log)
    = Returned tt
        (mkMachine (set_index 2 c) (log ++ [e1; e2; e3; x3; x2; x1])) /\
  Next (4 + fuel) [wrapping e1 x1; wrapping e2 x2; wrapping e3 x3]
      (mkMachine c log)
    = Panicked (IndexOutOfRange 3 3)
        (mkMachine (set_index 3 c) (log ++ [e1; e2; e3])) /\
  Next (2 + fuel) [wrapping e1 x1; stopping e2; h3] (mkMachine c log)
    = Returned tt (mkMachine (set_index 1 c) (log ++ [e1; e2; x1])).
Proof.
  intros Hi. destruct c as [g rq rs ws ps pa hn i fp mfp]. simpl in Hi. subst i.
  repeat split; cbv -[app]; rewrite <- ?app_assoc; reflexivity.
Qed.

End Chain_order.

(** C5: the theorem on a log of strings, from a fresh context reset to the
    before-first cursor. *)
Lemma Next_three_handlers_witness :
  index (ctx_at (-1)) = -1 /\
  Next 3 [wrapping "enter1" "exit1"; wrapping "enter2" "exit2";
          final "enter3" "exit3"] (mkMachine (ctx_at (-1)) no_events)
    = Returned tt
        (mkMachine (set_index 2 (ctx_at (-1)))
           ["enter1"; "enter2"; "enter3"; "exit3"; "exit2"; "exit1"]).
Proof.
  split; [reflexivity|].
  apply (Next_three_handlers 0 "enter1" "exit1" "enter2" "exit2" "enter3" "exit3"
           (stopping "enter3") (ctx_at (-1)) no_events).
  reflexivity.
Defined.

(** C5 fails as stated: when each of the three handlers calls [Next] once
    between its two events, no amount of fuel makes the chain return, so
    the six events are never all recorded. *)
Lemma Next_three_wrapping_never_returns :
  ~ exists fuel m',
      Next fuel [wrapping "enter1" "exit1"; wrapping "enter2" "exit2";
                 wrapping "enter3" "exit3"]
        (mkMachine (ctx_at (-1)) no_events) = Returned tt m'.
Proof.
  intros (fuel & m' & Hrun).
  do 4 (destruct fuel as [|fuel]; [discriminate Hrun|]).
  discriminate Hrun.
Qed.

(** *** [Param] and [ParseForm] *)

Section Param_facts.

Context {ChainRef : Type}.

Implicit Types (c : CtxFields ChainRef) (entries : list Param).

Lemma Param_loop_first before name v after :
  (forall e, e ∈ before -> Key e <> name) ->
  Param_loop (before ++ mkParam name v :: after) name = v.
Proof.
  induction before as [|e before IH]; intros Hnone; simpl.
  - destruct (decide (name = name)); [reflexivity | congruence].
  - destruct (decide (Key e = name)) as [Heq|_].
    + exfalso. apply (Hnone e); [left | assumption].
    + apply IH. intros e' He'. apply Hnone. right. assumption.
Qed.

Lemma Param_loop_absent entries name :
  (forall e, e ∈ entries -> Key e <> name) ->
  Param_loop entries name = blank.
Proof.
  induction entries as [|e entries IH]; intros Hnone; simpl; [reflexivity|].
  destruct (decide (Key e = name)) as [Heq|_].
  - exfalso. apply (Hnone e); [left | assumption].
  - apply IH. intros e' He'. apply Hnone. right. assumption.
Qed.

(** C9.  [Param] returns the value of the first entry of the slice whose
    key is the name, and the empty string when no entry has that key; so a
    slice without the name and the same slice with the name captured as the
    empty string give the same answer. *)
Theorem Param_first_match c (name : string) :
  (forall before v after,
     elems (params c) = before ++ mkParam name v :: after ->
     (forall e, e ∈ before -> Key e <> name) ->
     Ctx_Param c name = v) /\
  ((forall e, e ∈ elems (params c) -> Key e <> name) ->
     Ctx_Param c name = blank /\
     Ctx_Param
       (set_params (Params_of (elems (params c) ++ [mkParam name blank])) c)
       name = Ctx_Param c name).
Proof.
  split.
  - intros before v after Hsplit Hnone. unfold Ctx_Param. rewrite Hsplit.
    apply Param_loop_first. assumption.
  - intros Hnone. unfold Ctx_Param.
    rewrite Param_loop_absent by assumption. split; [reflexivity|].
    simpl. unfold elems at 1, Params_of; simpl. rewrite firstn_all.
    apply Param_loop_first. assumption.
Qed.

End Param_facts.

(** C9: the theorem on the slice [id=7, name=bob, id=9]: the first [id]
    wins. *)
Lemma Param_first_match_witness :
  Ctx_Param
    (set_params
       (Params_of [mkParam "id" "7"; mkParam "name" "bob"; mkParam "id" "9"])
       (ctx_at (-1))) "id" = "7".
Proof.
  destruct (Param_first_match
              (set_params
                 (Params_of
                    [mkParam "id" "7"; mkParam "name" "bob"; mkParam "id" "9"])
                 (ctx_at (-1))) "id") as [Hfirst _].
  apply (Hfirst [] "7" [mkParam "name" "bob"; mkParam "id" "9"]).
  - reflexivity.
  - intros e He. apply elem_of_nil in He. destruct He.
Defined.

Section ParseForm_facts.

Context {ChainRef World : Type}.

Implicit Types (c : CtxFields ChainRef) (form : Values).

Lemma values_of_Add (k' v k : string) form :
  values_of (Add k' v form) k =
    if decide (k' = k) then values_of form k ++ [v] else values_of form k.
Proof.
  unfold Add, values_of at 1.
  destruct (decide (k' = k)) as [->|Hne].
  - rewrite lookup_insert_eq. reflexivity.
  - rewrite lookup_insert_ne by assumption. reflexivity.
Qed.

(** Every entry of the slice adds one value under its key, after the
    values already there and in the order of the slice. *)
Lemma values_of_add_params (entries : list Param) form (k : string) :
  values_of (add_params entries form) k =
    values_of form k ++ (Value <$> filter (fun e => Key e = k) entries).
Proof.
  revert form. induction entries as [|e entries IH]; intros form; simpl.
  - rewrite app_nil_r. reflexivity.
  - rewrite IH, values_of_Add, filter_cons.
    destruct (decide (Key e = k)); simpl.
    + rewrite <- app_assoc. reflexivity.
    + reflexivity.
Qed.

(** C10.  On a context whose form has not been parsed, a call of
    [ParseForm] on which the request's own [ParseForm] succeeds returns nil,
    leaves in the request's form, under every key, the values parsed
    followed by one value per parameter of that key, and sets the flag;
    from then on every call returns nil and changes nothing, whatever the
    request's [ParseForm] would answer; the next [RequestStart] clears the
    flag. *)
Theorem ParseForm_idempotent (http_ParseForm : Request -> Request * option string)
    c (r r' : Request) :
  request c = Some r ->
  formParsed c = false ->
  http_ParseForm r = (r', None) ->
  exists c1 r1,
    ParseForm http_ParseForm c = Returned None c1 /\
    request c1 = Some r1 /\
    (forall k, values_of (Form r1) k =
       values_of (Form r') k
         ++ (Value <$> filter (fun e => Key e = k) (elems (params c)))) /\
    formParsed c1 = true /\
    params c1 = params c /\
    (forall parse_again, ParseForm parse_again c1 = Returned None c1) /\
    (forall w r2 (hs : HandlersChain ChainRef World),
       formParsed (fields (RequestStart w r2 (mkCtx c1 hs))) = false).
Proof.
  intros Hreq Hflag Hparse.
  eexists _, _. unfold ParseForm at 1. rewrite Hflag, Hreq, Hparse.
  repeat split.
  intros k. simpl. apply values_of_add_params.
Qed.

(** A failing parse is reported and leaves the flag down: the next call
    parses again. *)
Lemma ParseForm_error (http_ParseForm : Request -> Request * option string)
    c (r r' : Request) (err : string) :
  request c = Some r ->
  formParsed c = false ->
  http_ParseForm r = (r', Some err) ->
  ParseForm http_ParseForm c = Returned (Some err) (set_request (Some r') c) /\
  formParsed (set_request (Some r') c) = false.
Proof.
  intros Hreq Hflag Hparse. unfold ParseForm. rewrite Hflag, Hreq, Hparse.
  split; [reflexivity | assumption].
Qed.

End ParseForm_facts.

(** C10: the theorem on a request for [/search/lars?q=go]. *)
Lemma ParseForm_idempotent_witness :
  exists c1 r1,
    ParseForm parse_query search_ctx = Returned None c1 /\
    request c1 = Some r1 /\
    values_of (Form r1) "q" = ["go"; "lars"] /\
    ParseForm parse_query c1 = Returned None c1.
Proof.
  destruct (@ParseForm_idempotent unit unit parse_query search_ctx
              (mkRequest GET "/search/lars" ∅)
              (set_Form {["q" := ["go"]]} (mkRequest GET "/search/lars" ∅))
              eq_refl eq_refl eq_refl)
    as (c1 & r1 & Hrun & Hreq & Hform & _ & _ & Hagain & _).
  exists c1, r1. repeat split; try assumption.
  - rewrite Hform. reflexivity.
  - apply Hagain.
Defined.

(** * Properties of [lars.go] *)

Section Lars_facts.

Context {ChainRef World : Type}.

Variable range_keys : chainMethods ChainRef -> list string.

Implicit Types (c : CtxFields ChainRef) (m : Machine ChainRef World)
  (r : Response).

(** C8.  The router [New] returns redirects on a trailing-slash mismatch,
    does not compute 405 answers, has the chain of the single handler
    [default404Handler] as its 404 chain and the chain of the single
    handler [methodNotAllowedHandler] as its 405 chain; started on a
    context reset for a request, the 404 chain returns with status 404
    written, the text [Not Found] as body and the captured state
    untouched. *)
Theorem New_defaults :
  redirectTrailingSlash (@New ChainRef World range_keys) = true /\
  handleMethodNotAllowed (@New ChainRef World range_keys) = false /\
  http404 (@New ChainRef World range_keys) = [default404Handler] /\
  http405 (@New ChainRef World range_keys)
    = [methodNotAllowedHandler range_keys] /\
  forall (fuel : nat) (w : ResponseWriter) (rq : Request)
         (c0 : Ctx ChainRef World) (wd : World),
  exists m',
    Next (S fuel) (http404 (@New ChainRef World range_keys))
      (mkMachine (fields (RequestStart w rq c0)) wd) = Returned tt m' /\
    status (response (ctx m')) = StatusNotFound /\
    committed (response (ctx m')) = true /\
    body (response (ctx m')) = wBody w ++ ["Not Found" +:+ newline] /\
    world m' = wd.
Proof.
  repeat split. intros fuel w rq c0 wd. eexists. repeat split.
Qed.

Lemma add_allow_header (ks : list string) r :
  values_of (header (add_allow ks r)) "Allow"
    = values_of (header r) "Allow" ++ ks.
Proof.
  revert r. induction ks as [|k ks IH]; intros r; simpl.
  - rewrite app_nil_r. reflexivity.
  - rewrite IH. simpl. rewrite values_of_Add.
    destruct (decide ("Allow" = "Allow")); [|congruence].
    rewrite <- app_assoc. reflexivity.
Qed.

Lemma add_allow_status (ks : list string) r :
  status (add_allow ks r) = status r /\
  committed (add_allow ks r) = committed r /\
  body (add_allow ks r) = body r.
Proof.
  revert r. induction ks as [|k ks IH]; intros r; simpl; [auto|].
  destruct (IH (with_header (Add "Allow" k) r)) as (-> & -> & ->). auto.
Qed.

(** C7.  On a context whose store holds, under ["methods"], the chains per
    method of the node the path reached, and whose response is not yet
    committed and has no [Allow] entry, [methodNotAllowedHandler] returns
    with status 405 written and with the [Allow] header listing every
    method of that map once and nothing else, in whatever order the [range]
    visits the keys; it does not call [Next]. *)
Theorem methodNotAllowedHandler_allow
    (next : M (Machine ChainRef World) unit) m
    (methods : chainMethods ChainRef) :
  Ctx_Get (KString "methods") (ctx m) = (VMethods methods, true) ->
  range_keys methods ≡ₚ elements (dom methods) ->
  committed (response (ctx m)) = false ->
  values_of (header (response (ctx m))) "Allow" = [] ->
  exists m',
    methodNotAllowedHandler range_keys next m = Returned tt m' /\
    status (response (ctx m')) = StatusMethodNotAllowed /\
    committed (response (ctx m')) = true /\
    (forall k, k ∈ values_of (header (response (ctx m'))) "Allow"
               <-> is_Some (methods !! k)) /\
    NoDup (values_of (header (response (ctx m'))) "Allow") /\
    world m' = world m /\
    index (ctx m') = index (ctx m).
Proof.
  intros Hget Hperm Hfresh Hallow.
  unfold methodNotAllowedHandler. rewrite Hget.
  eexists. split; [reflexivity|]. simpl.
  destruct (add_allow_status (range_keys methods) (response (ctx m)))
    as (Hst & Hco & Hbo).
  unfold WriteHeader. rewrite Hco, Hfresh. simpl.
  rewrite add_allow_header, Hallow. simpl.
  repeat split.
  - intros Hk. rewrite Hperm in Hk. apply elem_of_elements in Hk.
    apply elem_of_dom in Hk. assumption.
  - intros Hk. rewrite Hperm. apply elem_of_elements.
    apply elem_of_dom. assumption.
  - rewrite Hperm. apply NoDup_elements.
Qed.

End Lars_facts.

(** *** The 405 answer on [/widgets] *)

(** C7: the theorem on [DELETE /widgets]: status 405, [GET] and [POST]
    allowed, [DELETE] not. *)
Lemma methodNotAllowedHandler_allow_witness :
  exists m',
    methodNotAllowedHandler range_elements (ret tt) (mkMachine widgets_ctx tt)
      = Returned tt m' /\
    status (response (ctx m')) = 405 /\
    GET ∈ values_of (header (response (ctx m'))) "Allow" /\
    POST ∈ values_of (header (response (ctx m'))) "Allow" /\
    DELETE ∉ values_of (header (response (ctx m'))) "Allow".
Proof.
  destruct (methodNotAllowedHandler_allow range_elements (ret tt)
              (mkMachine widgets_ctx tt) widgets_methods
              eq_refl (reflexivity _) eq_refl eq_refl)
    as (m' & Hrun & Hstatus & _ & Hallow & _).
  exists m'. repeat split; try assumption.
  - apply Hallow. exists tt. reflexivity.
  - apply Hallow. exists tt. reflexivity.
  - intros Hin. apply Hallow in Hin. destruct Hin as [x Hx].
    vm_compute in Hx. discriminate Hx.
Defined.

(** * Properties of the dispatch *)

Section Dispatch_facts.

Context {ChainRef World : Type}.

Variable seal : HandlersChain ChainRef World -> ChainRef.

Variable tree_Find :
  node (HandlersChain ChainRef World) -> string -> string ->
  found (HandlersChain ChainRef World).

Lemma redirect_code_GET_HEAD (method : string) :
  method = GET \/ method = HEAD -> redirect_code method = 301.
Proof.
  intros [-> | ->]; reflexivity.
Qed.

Lemma redirect_code_other (method : string) :
  method <> GET -> method <> HEAD -> redirect_code method = 307.
Proof.
  intros Hget Hhead. unfold redirect_code.
  destruct (decide (method = GET)); [congruence|].
  destruct (decide (method = HEAD)); [congruence|]. reflexivity.
Qed.

(** C6.  When the lookup reports no match for the request but a match with
    the trailing slash toggled, and redirection is enabled, the chain
    installed is the redirect alone, whatever chains the tree holds and
    whatever the 404 and 405 chains are; [serveHTTP] returns with the
    [Location] header set to the toggled path and with status 301 written
    for [GET] and [HEAD] and 307 for every other method; the state captured
    by the registered handlers is untouched. *)
Theorem serveHTTP_redirects (fuel : nat) (l : LARS ChainRef World)
    (c0 : Ctx ChainRef World) (w : ResponseWriter) (rq : Request) (wd : World)
    (allowed : gmap string (HandlersChain ChainRef World)) :
  redirectTrailingSlash l = true ->
  tree_Find (head l) (Method rq) (URLPath rq) = NoMatch allowed true ->
  handlers (LARS_Find seal tree_Find l (RequestStart w rq c0))
    = [redirect (Method rq) (toggle_slash (URLPath rq))] /\
  exists m',
    serveHTTP seal tree_Find (S fuel) l c0 w rq wd = Returned tt m' /\
    (Method rq = GET \/ Method rq = HEAD ->
     status (response (ctx m')) = 301) /\
    (Method rq <> GET -> Method rq <> HEAD ->
     status (response (ctx m')) = 307) /\
    committed (response (ctx m')) = true /\
    values_of (header (response (ctx m'))) Location
      = [toggle_slash (URLPath rq)] /\
    world m' = wd.
Proof.
  intros Hon Htsr.
  assert (Hchain : handlers (LARS_Find seal tree_Find l (RequestStart w rq c0))
            = [redirect (Method rq) (toggle_slash (URLPath rq))]).
  { unfold LARS_Find. simpl. rewrite Htsr, Hon. reflexivity. }
  split; [exact Hchain|].
  unfold serveHTTP. rewrite Hchain.
  unfold LARS_Find. simpl. rewrite Htsr, Hon. simpl.
  eexists. split; [reflexivity|]. simpl.
  split; [apply redirect_code_GET_HEAD|].
  split; [apply redirect_code_other|].
  unfold values_of, SetHeader. rewrite lookup_insert_eq.
  repeat split.
Qed.

End Dispatch_facts.

(** *** The redirect on [/foo/] *)

(** C6: the theorem on [HEAD /foo/] with the lookup of the route tree:
    status 301 and nothing recorded. *)
Lemma serveHTTP_redirects_witness :
  exists m',
    serveHTTP seal_unit Find 1 foo_router pooled_ctx blank_writer
      (mkRequest HEAD "/foo/" ∅) no_events = Returned tt m' /\
    status (response (ctx m')) = 301 /\
    values_of (header (response (ctx m'))) Location = ["/foo"] /\
    world m' = no_events.
Proof.
  assert (Hon : redirectTrailingSlash foo_router = true)
    by (vm_compute; reflexivity).
  assert (Htsr : Find (head foo_router) (Method (mkRequest HEAD "/foo/" ∅))
                   (URLPath (mkRequest HEAD "/foo/" ∅)) = NoMatch ∅ true)
    by (vm_compute; reflexivity).
  destruct (serveHTTP_redirects seal_unit Find 0 foo_router pooled_ctx
              blank_writer (mkRequest HEAD "/foo/" ∅) no_events ∅ Hon Htsr)
    as (_ & m' & Hrun & Hstatus & _ & _ & Hloc & Hworld).
  exists m'. split; [exact Hrun|].
  split; [apply Hstatus; right; reflexivity|].
  split; assumption.
Defined.

(** A [POST] redirected for its trailing slash is answered with 307. *)
Example serveHTTP_redirects_POST_with_307 :
  exists m',
    serveHTTP seal_unit Find 1 foo_router pooled_ctx blank_writer
      (mkRequest POST "/foo/" ∅) no_events = Returned tt m' /\
    status (response (ctx m')) = 307.
Proof.
  destruct (serveHTTP seal_unit Find 1 foo_router pooled_ctx blank_writer
              (mkRequest POST "/foo/" ∅) no_events) as [[] m'|f m'|] eqn:Hrun;
    vm_compute in Hrun; [|discriminate Hrun..].
  injection Hrun as <-. eexists. split; [reflexivity|].
  vm_compute; reflexivity.
Qed.

(** * Properties of the route tree *)

(** *** Byte strings *)

Lemma append_nil_l (x : string) : "" +:+ x = x.
Proof. reflexivity. Qed.

Lemma append_cons (c : ascii) (s x : string) :
  String c s +:+ x = String c (s +:+ x).
Proof. reflexivity. Qed.

Lemma append_nil_r (s : string) : s +:+ "" = s.
Proof.
  induction s as [|c s IH]; [reflexivity|].
  rewrite append_cons, IH. reflexivity.
Qed.

Lemma strip_prefix_app (p x : string) : strip_prefix p (p +:+ x) = Some x.
Proof.
  induction p as [|c p IH]; [reflexivity|].
  rewrite append_cons. simpl.
  destruct (decide (c = c)); [apply IH | congruence].
Qed.

Lemma strip_prefix_refl (p : string) : strip_prefix p p = Some "".
Proof. rewrite <- (append_nil_r p) at 2. apply strip_prefix_app. Qed.

Lemma common_prefix_app_l (p a : string) :
  common_prefix (p +:+ a) p = (p, a, "").
Proof.
  induction p as [|c p IH].
  - rewrite append_nil_l. destruct a; reflexivity.
  - rewrite append_cons. simpl.
    destruct (decide (c = c)); [|congruence]. rewrite IH. reflexivity.
Qed.

Lemma common_prefix_app_r (p a : string) :
  common_prefix p (p +:+ a) = (p, "", a).
Proof.
  induction p as [|c p IH].
  - reflexivity.
  - rewrite append_cons. simpl.
    destruct (decide (c = c)); [|congruence]. rewrite IH. reflexivity.
Qed.

Lemma split_segment_no_slash (v : string) :
  no_slash v = true -> split_segment v = (v, "").
Proof.
  induction v as [|c v IH]; simpl; [reflexivity|].
  intros Hv. apply andb_prop in Hv as [Hc Hv].
  apply negb_true_iff, bool_decide_eq_false in Hc.
  destruct (decide (c = slashByte)); [contradiction|].
  rewrite IH by assumption. reflexivity.
Qed.

Lemma scan_param_name (name : string) :
  no_slash name = true -> scan true name = (name, []).
Proof.
  induction name as [|c name IH]; simpl; [reflexivity|].
  intros Hn. apply andb_prop in Hn as [Hc Hn].
  apply negb_true_iff, bool_decide_eq_false in Hc.
  destruct (decide (c = slashByte)); [contradiction|].
  rewrite IH by assumption. reflexivity.
Qed.

Lemma scan_literal (s : string) (rest : string) :
  is_literal s = true ->
  scan false (s +:+ rest) = let '(s', ts) := scan false rest in (s +:+ s', ts).
Proof.
  induction s as [|c s IH].
  - intros _. rewrite append_nil_l. destruct (scan false rest). reflexivity.
  - intros Hs. simpl in Hs. apply andb_prop in Hs as [Hc Hs].
    apply andb_prop in Hc as [Hc1 Hc2].
    apply negb_true_iff, bool_decide_eq_false in Hc1, Hc2.
    rewrite append_cons. simpl.
    destruct (decide (c = colonByte)); [contradiction|].
    destruct (decide (c = startByte)); [contradiction|].
    rewrite IH by assumption. destruct (scan false rest). reflexivity.
Qed.

Lemma segments_literal (s : string) :
  is_literal s = true -> segments s = lit_cons s [].
Proof.
  intros Hs. unfold segments. rewrite <- (append_nil_r s) at 1.
  rewrite scan_literal by assumption. simpl. rewrite append_nil_r. reflexivity.
Qed.

Lemma segments_literal_param (pre name : string) :
  is_literal pre = true -> no_slash name = true ->
  segments (pre +:+ String colonByte name) = lit_cons pre [Par name].
Proof.
  intros Hp Hn. unfold segments. rewrite scan_literal by assumption.
  simpl. rewrite scan_param_name by assumption.
  rewrite append_nil_r. reflexivity.
Qed.

(** *** Descent and registration *)

Section Tree_facts.
Context {H : Type}.

Lemma lit_cons_cons (c : ascii) (s : string) (ts : list segment) :
  lit_cons (String c s) ts = Lit (String c s) :: ts.
Proof. reflexivity. Qed.


(** The descent of [walk], one node at a time. *)
Lemma walk_eq (n : node H) (path : string) (ps : list Param) (pat : string) :
  walk n path ps pat =
    match strip_prefix (label n) path with
    | None => Miss
    | Some EmptyString => Reached (chains n) ps (pat +:+ label n)
    | Some (String b _ as rest) =>
        match static_child (static n) b with
        | Some c => walk c rest ps (pat +:+ label n)
        | None =>
            let try_wildcard :=
              match wildcard n with
              | Some (name, wms) =>
                  Reached wms (ps ++ [mkParam name rest])
                    (pat +:+ label n +:+ String startByte name)
              | None => Miss
              end in
            match param n with
            | Some (name, c) =>
                let '(seg, after) := split_segment rest in
                match seg with
                | EmptyString => try_wildcard
                | _ =>
                    walk c after (ps ++ [mkParam name seg])
                      (pat +:+ label n +:+ String colonByte name)
                end
            | None => try_wildcard
            end
        end
    end.
Proof.
  destruct n as [lbl st par wild ms]. cbn [label static param wildcard chains].
  cbn [walk]. destruct (strip_prefix lbl path) as [[|b rest]|]; try reflexivity.
  induction st as [|[k c] st IH]; cbn [static_child].
  - reflexivity.
  - destruct (decide (k = b)); [reflexivity | exact IH].
Qed.

Lemma static_child_hit (b : ascii) (c : node H) (cs : list (ascii * node H)) :
  static_child ((b, c) :: cs) b = Some c.
Proof. simpl. destruct (decide (b = b)); [reflexivity | congruence]. Qed.

Lemma static_child_skip (k b : ascii) (c : node H) (cs : list (ascii * node H)) :
  k <> b -> static_child ((k, c) :: cs) b = static_child cs b.
Proof. intros Hne. simpl. destruct (decide (k = b)); [congruence | reflexivity]. Qed.


(** The precedence at a branch point: a static child keyed by the next
    byte is taken whatever parameter or wildcard child the node has. *)
Lemma walk_static_first (n c : node H) (path rest : string) (b : ascii)
    (ps : list Param) (pat : string) :
  strip_prefix (label n) path = Some (String b rest) ->
  static_child (static n) b = Some c ->
  walk n path ps pat = walk c (String b rest) ps (pat +:+ label n).
Proof. intros Hstrip Hchild. rewrite walk_eq, Hstrip, Hchild. reflexivity. Qed.

(** Without such a static child, the parameter child takes the next
    segment when it is not empty, whatever wildcard child the node has. *)
Lemma walk_param_second (n c : node H) (path rest seg after name : string)
    (b : ascii) (ps : list Param) (pat : string) :
  strip_prefix (label n) path = Some (String b rest) ->
  static_child (static n) b = None ->
  param n = Some (name, c) ->
  split_segment (String b rest) = (seg, after) ->
  seg <> "" ->
  walk n path ps pat
    = walk c after (ps ++ [mkParam name seg])
        (pat +:+ label n +:+ String colonByte name).
Proof.
  intros Hstrip Hchild Hparam Hseg Hne.
  rewrite walk_eq, Hstrip, Hchild, Hparam, Hseg.
  destruct seg; [congruence | reflexivity].
Qed.

(** Without a static or a parameter child, the wildcard child takes the
    rest of the path. *)
Lemma walk_wildcard_last (n : node H) (path rest name : string) (b : ascii)
    (wms : gmap string H) (ps : list Param) (pat : string) :
  strip_prefix (label n) path = Some (String b rest) ->
  static_child (static n) b = None ->
  param n = None ->
  wildcard n = Some (name, wms) ->
  walk n path ps pat
    = Reached wms (ps ++ [mkParam name (String b rest)])
        (pat +:+ label n +:+ String startByte name).
Proof.
  intros Hstrip Hchild Hparam Hwild.
  rewrite walk_eq, Hstrip, Hchild, Hparam, Hwild. reflexivity.
Qed.

Lemma is_literal_app (p s : string) :
  is_literal p = true -> is_literal s = true -> is_literal (p +:+ s) = true.
Proof.
  intros Hp Hs. induction p as [|a p IH]; [exact Hs|].
  rewrite append_cons. simpl in *. apply andb_prop in Hp as [-> Hp].
  simpl. apply IH. assumption.
Qed.

(** Registering the static route and then the parameter route splits the
    node of the first at the end of the shared prefix. *)
Lemma Insert_static_then_param (method pre s name : string) (c1 c2 : H) :
  is_literal pre = true -> is_literal s = true -> s <> "" ->
  no_slash name = true ->
  exists t1,
    Insert empty_node method (pre +:+ s) c1 = Inserted t1 /\
    Insert t1 method (pre +:+ String colonByte name) c2
      = Inserted (fork_tree method pre s name c1 c2).
Proof.
  intros Hpre Hs Hne Hname.
  destruct s as [|b s']; [congruence|]. clear Hne.
  unfold Insert.
  rewrite segments_literal_param by assumption.
  rewrite segments_literal by (apply is_literal_app; assumption).
  destruct pre as [|a pre'].
  - rewrite !append_nil_l. simpl. eexists. split; reflexivity.
  - rewrite !append_cons, !lit_cons_cons. simpl insert at 1.
    eexists. split; [reflexivity|]. simpl.
    destruct (decide (a = a)); [|congruence].
    destruct (decide (a = a)); [|congruence].
    rewrite common_prefix_app_l. reflexivity.
Qed.

(** Registering them in the other order adds the static child below the
    node the parameter route made: the tree is the same. *)
Lemma Insert_param_then_static (method pre s name : string) (c1 c2 : H) :
  is_literal pre = true -> is_literal s = true -> s <> "" ->
  no_slash name = true ->
  exists t1,
    Insert empty_node method (pre +:+ String colonByte name) c2 = Inserted t1 /\
    Insert t1 method (pre +:+ s) c1
      = Inserted (fork_tree method pre s name c1 c2).
Proof.
  intros Hpre Hs Hne Hname.
  destruct s as [|b s']; [congruence|]. clear Hne.
  unfold Insert.
  rewrite segments_literal_param by assumption.
  rewrite segments_literal by (apply is_literal_app; assumption).
  destruct pre as [|a pre'].
  - rewrite !append_nil_l. simpl. eexists. split; reflexivity.
  - rewrite !append_cons, !lit_cons_cons. simpl insert at 1.
    eexists. split; [reflexivity|]. simpl.
    destruct (decide (a = a)); [|congruence].
    destruct (decide (a = a)); [|congruence].
    rewrite common_prefix_app_r. reflexivity.
Qed.

(** From the root, a path that starts with the shared prefix goes to the
    branch point. *)
Lemma walk_fork_tree (method pre s name x : string) (c1 c2 : H) :
  walk (fork_tree method pre s name c1 c2) (pre +:+ x) [] ""
    = walk (fork_node method pre s name c1 c2) (pre +:+ x) [] "".
Proof.
  destruct pre as [|a pre']; [reflexivity|].
  unfold fork_tree. rewrite append_cons.
  rewrite walk_eq. cbn [label static strip_prefix].
  rewrite static_child_hit. reflexivity.
Qed.

(** At the branch point the static child is taken for its own text. *)
Lemma walk_fork_static (method pre s name : string) (c1 c2 : H) :
  s <> "" ->
  walk (fork_node method pre s name c1 c2) (pre +:+ s) [] ""
    = Reached {[method := c1]} [] (pre +:+ s).
Proof.
  intros Hs. destruct s as [|b s']; [congruence|].
  rewrite walk_eq. cbn [fork_node label static].
  rewrite strip_prefix_app. cbn [first_byte]. rewrite static_child_hit.
  rewrite walk_eq. cbn [label chains]. rewrite strip_prefix_refl.
  reflexivity.
Qed.

(** A segment that starts with another byte goes to the parameter child,
    whole. *)
Lemma walk_fork_param (method pre s name v : string) (c1 c2 : H) :
  v <> "" -> no_slash v = true -> first_byte v <> first_byte s ->
  walk (fork_node method pre s name c1 c2) (pre +:+ v) [] ""
    = Reached {[method := c2]} [mkParam name v] (pre +:+ String colonByte name).
Proof.
  intros Hv Hnos Hfb. destruct v as [|d v']; [congruence|].
  cbn [first_byte] in Hfb.
  rewrite walk_eq. cbn [fork_node label static param].
  rewrite strip_prefix_app.
  rewrite static_child_skip by congruence. cbn [static_child].
  rewrite (split_segment_no_slash (String d v') Hnos).
  rewrite walk_eq. cbn [label chains strip_prefix].
  rewrite append_nil_r. reflexivity.
Qed.

(** A segment that starts with the byte of the static child and is not its
    text is lost: the static child was taken, and its label does not
    match. *)
Lemma strip_prefix_whole (s v : string) : strip_prefix s v = Some "" -> v = s.
Proof.
  revert v. induction s as [|a s IH]; intros v Hs; simpl in Hs.
  - congruence.
  - destruct v as [|b v]; [discriminate|].
    destruct (decide (a = b)) as [->|]; [|discriminate].
    f_equal. apply IH. exact Hs.
Qed.

Lemma walk_fork_final (method pre s name v : string) (c1 c2 : H) :
  v <> "" -> first_byte v = first_byte s -> v <> s ->
  walk (fork_node method pre s name c1 c2) (pre +:+ v) [] "" = Miss.
Proof.
  intros Hv Hfb Hvs. destruct v as [|d v']; [congruence|].
  rewrite walk_eq. cbn [fork_node label static].
  rewrite strip_prefix_app. rewrite <- Hfb. cbn [first_byte].
  rewrite static_child_hit.
  rewrite walk_eq. cbn [label static param wildcard].
  destruct (strip_prefix s (String d v')) as [[|b rest]|] eqn:Hstrip.
  - apply strip_prefix_whole in Hstrip. congruence.
  - reflexivity.
  - reflexivity.
Qed.

(** The descent of section 4.1 on a static route [pre ++ s] and a
    parameter route [pre ++ :name] registered for one method, in either
    order: they give one tree.  On it [Find] answers the path [pre ++ s]
    with the chain of the static route and no parameter; it answers
    [pre ++ v], for a non-empty segment [v] that does not start with the
    first byte of [s], with the chain of the parameter route and [v]
    captured under [name]; and whatever else starts with that byte finds no
    route, because the static branch, once taken, is final. *)
Lemma Find_static_before_param (method pre s name : string) (c1 c2 : H) :
  is_literal pre = true -> is_literal s = true -> s <> "" ->
  no_slash name = true ->
  exists t,
    (exists t1, Insert empty_node method (pre +:+ s) c1 = Inserted t1 /\
                Insert t1 method (pre +:+ String colonByte name) c2
                  = Inserted t) /\
    (exists t1, Insert empty_node method (pre +:+ String colonByte name) c2
                  = Inserted t1 /\
                Insert t1 method (pre +:+ s) c1 = Inserted t) /\
    Find t method (pre +:+ s) = Found c1 [] (pre +:+ s) /\
    (forall v, v <> "" -> no_slash v = true -> first_byte v <> first_byte s ->
       Find t method (pre +:+ v)
         = Found c2 [mkParam name v] (pre +:+ String colonByte name)) /\
    (forall v, v <> "" -> first_byte v = first_byte s -> v <> s ->
       exists tsr, Find t method (pre +:+ v) = NoMatch ∅ tsr).
Proof.
  intros Hpre Hs Hne Hname.
  exists (fork_tree method pre s name c1 c2).
  split; [apply Insert_static_then_param; assumption|].
  split; [apply Insert_param_then_static; assumption|].
  unfold Find. repeat split.
  - rewrite walk_fork_tree, walk_fork_static by assumption.
    rewrite lookup_singleton_eq. reflexivity.
  - intros v Hv Hnos Hfb.
    rewrite walk_fork_tree, walk_fork_param by assumption.
    rewrite lookup_singleton_eq. reflexivity.
  - intros v Hv Hfb Hvs.
    rewrite walk_fork_tree, walk_fork_final by assumption.
    eexists. reflexivity.
Qed.

End Tree_facts.

(** *** The routes [/users/admin] and [/users/:id] *)

(** On [/users/admin] and [/users/:id] for [GET]: the static chain on
    [/users/admin], the parameter chain with [id = bob] on [/users/bob]. *)
Example Find_users_admin_and_bob :
  exists t : node string,
    (exists t1, Insert empty_node GET "/users/admin" "static chain"
                  = Inserted t1 /\
                Insert t1 GET "/users/:id" "parameter chain" = Inserted t) /\
    Find t GET "/users/admin" = Found "static chain" [] "/users/admin" /\
    Find t GET "/users/bob"
      = Found "parameter chain" [mkParam "id" "bob"] "/users/:id".
Proof.
  destruct (Find_static_before_param GET "/users/" "admin" "id"
              "static chain" "parameter chain"
              eq_refl eq_refl ltac:(discriminate) eq_refl)
    as (t & Horder & _ & Hstatic & Hparam & _).
  exists t. split; [exact Horder|]. split; [exact Hstatic|].
  apply (Hparam "bob"); [discriminate | reflexivity | discriminate].
Qed.

(** With final decisions, [/users/adam] and [/users/administrator] match
    the parameter pattern and are not the static path, yet the descent
    reports no route for them. *)
Example Find_loses_segment_sharing_first_byte :
  exists t1 t2 : node string,
    Insert empty_node GET "/users/admin" "static chain" = Inserted t1 /\
    Insert t1 GET "/users/:id" "parameter chain" = Inserted t2 /\
    Find t2 GET "/users/adam" = NoMatch ∅ false /\
    Find t2 GET "/users/administrator" = NoMatch ∅ false.
Proof.
  eexists _, _. split; [vm_compute; reflexivity|].
  split; [vm_compute; reflexivity|].
  split; vm_compute; reflexivity.
Qed.

(** The patterns [/users/admin] and [/users/:id/posts] are disjoint, and
    [/users/adam/posts] matches the second one only; with final decisions
    the descent does not find it.  This is where the descent of section 4.1
    and the first property of section 8 part. *)
Example Find_misses_a_disjoint_pattern :
  exists t1 t2 : node string,
    Insert empty_node GET "/users/admin" "static chain" = Inserted t1 /\
    Insert t1 GET "/users/:id/posts" "posts chain" = Inserted t2 /\
    Find t2 GET "/users/bob/posts"
      = Found "posts chain" [mkParam "id" "bob"] "/users/:id/posts" /\
    Find t2 GET "/users/adam/posts" = NoMatch ∅ false.
Proof.
  eexists _, _. split; [vm_compute; reflexivity|].
  split; [vm_compute; reflexivity|].
  split; vm_compute; reflexivity.
Qed.

(** *** Lookups on a tree of three routes *)

(** The registrations succeed, and a second name for the parameter of
    [/users/] or a static route beside the wildcard of [/files/] is a
    conflict. *)
Example sample_tree_conflicts :
  (exists t, sample_tree = Inserted t) /\
  and_then sample_tree GET "/users/:name" "other" = ConflictingRoute /\
  and_then sample_tree GET "/files/readme" "other" = ConflictingRoute.
Proof.
  split; [eexists; vm_compute; reflexivity|].
  split; vm_compute; reflexivity.
Qed.

(** A wildcard captures the rest of the path, slashes included. *)
Example Find_wildcard_capture :
  Find_in sample_tree GET "/files/a/b/c"
    = Some (Found "files" [mkParam "rest" "a/b/c"] "/files/*rest").
Proof. vm_compute. reflexivity. Qed.

(** [/foo/] has no route but [/foo] has: the answer carries the
    trailing-slash signal; [/fo] has neither. *)
Example Find_trailing_slash_signal :
  Find_in sample_tree GET "/foo/" = Some (NoMatch ∅ true) /\
  Find_in sample_tree GET "/fo" = Some (NoMatch ∅ false).
Proof. split; vm_compute; reflexivity. Qed.

(** At a terminal without a chain for the method, the chains of the other
    methods are reported. *)
Example Find_other_methods :
  Find_in sample_tree GET "/users/7/posts"
    = Some (NoMatch {[POST := "posts"]} false) /\
  Find_in sample_tree POST "/users/7/posts"
    = Some (Found "posts" [mkParam "id" "7"] "/users/:id/posts").
Proof. split; vm_compute; reflexivity. Qed.

(** *** The 405 and 404 answers of the dispatch *)

(** With 405 handling enabled, [DELETE /widgets] is answered with status
    405 and [Allow] listing [GET] and [POST]; no registered handler runs. *)
Example serveHTTP_method_not_allowed :
  exists m',
    serveHTTP seal_unit Find 1 (SetHandle405MethodNotAllowed true widgets_router)
      pooled_ctx blank_writer (mkRequest DELETE "/widgets" ∅) no_events
      = Returned tt m' /\
    status (response (ctx m')) = 405 /\
    values_of (header (response (ctx m'))) "Allow" ≡ₚ [GET; POST] /\
    world m' = no_events.
Proof.
  destruct (serveHTTP seal_unit Find 1
              (SetHandle405MethodNotAllowed true widgets_router)
              pooled_ctx blank_writer (mkRequest DELETE "/widgets" ∅)
              no_events) as [[] m'|f m'|] eqn:Hrun;
    vm_compute in Hrun; [|discriminate Hrun..].
  injection Hrun as <-. eexists. split; [reflexivity|].
  split; [vm_compute; reflexivity|].
  split; [|vm_compute; reflexivity].
  vm_compute. first [reflexivity | apply Permutation_swap].
Qed.

(** With the defaults of [New], the same request is answered by the 404
    chain. *)
Example serveHTTP_not_found_by_default :
  exists m',
    serveHTTP seal_unit Find 1 widgets_router pooled_ctx blank_writer
      (mkRequest DELETE "/widgets" ∅) no_events = Returned tt m' /\
    status (response (ctx m')) = 404 /\
    values_of (header (response (ctx m'))) "Allow" = [] /\
    world m' = no_events.
Proof.
  destruct (serveHTTP seal_unit Find 1 widgets_router pooled_ctx
              blank_writer (mkRequest DELETE "/widgets" ∅) no_events)
    as [[] m'|f m'|] eqn:Hrun;
    vm_compute in Hrun; [|discriminate Hrun..].
  injection Hrun as <-. eexists. split; [reflexivity|].
  repeat split; vm_compute; reflexivity.
Qed.

(** A matched route runs its chain with the parameters of the match. *)
Example serveHTTP_runs_the_chain :
  exists m',
    serveHTTP seal_unit Find 1 widgets_router pooled_ctx blank_writer
      (mkRequest GET "/widgets" ∅) no_events = Returned tt m' /\
    world m' = ["get"; "done"].
Proof.
  destruct (serveHTTP seal_unit Find 1 widgets_router pooled_ctx
              blank_writer (mkRequest GET "/widgets" ∅) no_events)
    as [[] m'|f m'|] eqn:Hrun;
    vm_compute in Hrun; [|discriminate Hrun..].
  injection Hrun as <-. eexists. split; reflexivity.
Qed.

(** * More properties of [context.go] *)

(** *** Chains of any length *)


Section Chain_facts.
Context {ChainRef E : Type}.
Implicit Types (c : CtxFields ChainRef) (log : list E)
  (hs : HandlersChain ChainRef (list E)).

(** One call of [Next] inside the chain: the cursor moves by one and the
    handler there runs with the rest of the fuel. *)
Lemma Next_step (fuel : nat) hs (h : HandlerFunc ChainRef (list E)) c log :
  int_min <= index c < int_max ->
  handler_at hs (index c + 1) = Some h ->
  Next (S fuel) hs (mkMachine c log)
    = h (Next fuel hs) (mkMachine (set_index (index c + 1) c) log).
Proof.
  intros Hrange Hh. simpl. unfold on_ctx. simpl.
  rewrite incr_int_below_max by assumption. rewrite Hh. reflexivity.
Qed.

Lemma handler_at_middle hs (h : HandlerFunc ChainRef (list E)) hs' :
  handler_at (hs ++ h :: hs') (Z.of_nat (length hs)) = Some h.
Proof.
  unfold handler_at. destruct (decide (Z.of_nat (length hs) < 0)); [lia|].
  rewrite Nat2Z.id. apply list_lookup_middle. reflexivity.
Qed.

Lemma wrapping_eq (e x : E) (next : M (Machine ChainRef (list E)) unit) c log :
  wrapping e x next (mkMachine c log)
    = then_exits [x] (next (mkMachine c (log ++ [e]))).
Proof. reflexivity. Qed.

Lemma then_exits_nil (o : outcome (Machine ChainRef (list E)) unit) :
  then_exits [] o = o.
Proof.
  destruct o as [[] [c log]|f m|]; try reflexivity.
  unfold then_exits, on_world. simpl. rewrite app_nil_r. reflexivity.
Qed.

Lemma then_exits_app (xs ys : list E)
    (o : outcome (Machine ChainRef (list E)) unit) :
  then_exits ys (then_exits xs o) = then_exits (xs ++ ys) o.
Proof.
  destruct o as [[] [c log]|f m|]; try reflexivity.
  unfold then_exits, on_world. simpl. rewrite <- app_assoc. reflexivity.
Qed.

Lemma Next_through_wrappings (pairs : list (E * E)) :
  forall (before : HandlersChain ChainRef (list E))
         (inner : HandlerFunc ChainRef (list E))
         (rest chain : HandlersChain ChainRef (list E)) (fuel : nat) c log,
  chain = before ++ wrappings pairs ++ inner :: rest ->
  index c = Z.of_nat (length before) - 1 ->
  Z.of_nat (length before + length pairs) < int_max ->
  Next (S (length pairs + fuel)) chain (mkMachine c log)
    = then_exits (rev pairs.*2)
        (inner (Next fuel chain)
           (mkMachine
              (set_index (Z.of_nat (length before + length pairs)) c)
              (log ++ pairs.*1))).
Proof.
  induction pairs as [|[e x] pairs IH];
    intros before inner rest chain fuel c log Hchain Hi Hlen.
  - simpl length in *. rewrite Nat.add_0_r in *. simpl in Hchain.
    rewrite Next_step with (h := inner).
    + rewrite Hi.
      replace (Z.of_nat (length before) - 1 + 1)
        with (Z.of_nat (length before)) by lia.
      simpl. rewrite app_nil_r, then_exits_nil. reflexivity.
    + unfold int_min, int_max in *. lia.
    + rewrite Hi, Hchain.
      replace (Z.of_nat (length before) - 1 + 1)
        with (Z.of_nat (length before)) by lia.
      apply handler_at_middle.
  - simpl length in *.
    replace (S (S (length pairs) + fuel)) with (S (S (length pairs + fuel)))
      by lia.
    rewrite Next_step with (h := wrapping e x).
    + rewrite Hi.
      replace (Z.of_nat (length before) - 1 + 1)
        with (Z.of_nat (length before)) by lia.
      rewrite wrapping_eq.
      rewrite (IH (before ++ [wrapping e x]) inner rest chain).
      * rewrite then_exits_app. rewrite length_app. simpl length.
        replace (length before + 1 + length pairs)%nat
          with (length before + S (length pairs))%nat by lia.
        simpl. rewrite <- app_assoc. reflexivity.
      * rewrite Hchain, <- app_assoc. reflexivity.
      * simpl. rewrite length_app. simpl. lia.
      * rewrite length_app. simpl. lia.
    + unfold int_min, int_max in *. lia.
    + rewrite Hi, Hchain.
      replace (Z.of_nat (length before) - 1 + 1)
        with (Z.of_nat (length before)) by lia.
      apply handler_at_middle.
Qed.

(** X1.  From the before-first cursor, any number of middlewares that
    record an event, call [Next] once and record an event, followed by a
    handler that records its events without calling [Next], run in nested
    order: the enter events first to last, the events of the handler, the
    exit events last to first; the cursor ends on that handler and the
    handlers after it are not called. *)
Theorem Next_onion_any_length (pairs : list (E * E)) (mid : list E)
    (rest : HandlersChain ChainRef (list E)) (fuel : nat) c log :
  index c = -1 ->
  Z.of_nat (length pairs) < int_max ->
  Next (S (length pairs + fuel)) (wrappings pairs ++ recording mid :: rest)
      (mkMachine c log)
    = Returned tt
        (mkMachine (set_index (Z.of_nat (length pairs)) c)
           (log ++ pairs.*1 ++ mid ++ rev pairs.*2)).
Proof.
  intros Hi Hlen.
  rewrite (Next_through_wrappings pairs [] (recording mid) rest
             (wrappings pairs ++ recording mid :: rest) fuel c log);
    [|reflexivity | simpl; lia | simpl; lia].
  simpl. unfold on_world. simpl. rewrite <- !app_assoc. reflexivity.
Qed.

(** X2.  A chain made only of middlewares that each call [Next] once
    panics, whatever its length: the call of the last one finds the cursor
    past the chain, after every enter event and before any exit event. *)
Theorem Next_all_middlewares_panic (pairs : list (E * E)) (e x : E)
    (fuel : nat) c log :
  index c = -1 ->
  Z.of_nat (length pairs) + 1 < int_max ->
  Next (S (S (length pairs + fuel))) (wrappings (pairs ++ [(e, x)]))
      (mkMachine c log)
    = Panicked
        (IndexOutOfRange (Z.of_nat (length pairs) + 1) (S (length pairs)))
        (mkMachine (set_index (Z.of_nat (length pairs) + 1) c)
           (log ++ pairs.*1 ++ [e])).
Proof.
  intros Hi Hlen.
  replace (S (S (length pairs + fuel))) with (S (length pairs + S fuel)) by lia.
  rewrite (Next_through_wrappings pairs [] (wrapping e x) []
             (wrappings (pairs ++ [(e, x)])) (S fuel) c log);
    [| unfold wrappings; rewrite fmap_app; reflexivity | simpl; lia | simpl; lia].
  rewrite wrapping_eq. cbn [length Nat.add].
  cbn [Next]. unfold on_ctx. cbn [ctx world index set_index].
  rewrite incr_int_below_max by (unfold int_min, int_max in *; lia).
  rewrite handler_at_out_of_range.
  - unfold wrappings. rewrite length_fmap, length_app. simpl.
    rewrite <- app_assoc.
    replace (length pairs + 1)%nat with (S (length pairs)) by lia.
    reflexivity.
  - right. unfold wrappings. rewrite length_fmap, length_app. simpl. lia.
Qed.

(** X3.  A handler that calls [Next] twice does not run the next handler
    twice: the second call runs the handler after the one the first call
    ran, and panics when there is none. *)
Theorem Next_twice_moves_on (a b : list E)
    (rest : HandlersChain ChainRef (list E)) (fuel : nat) c log :
  index c = -1 ->
  Next (2 + fuel) (calling_twice :: recording a :: recording b :: rest)
      (mkMachine c log)
    = Returned tt (mkMachine (set_index 2 c) (log ++ a ++ b)) /\
  Next (2 + fuel) [calling_twice; recording a] (mkMachine c log)
    = Panicked (IndexOutOfRange 2 2) (mkMachine (set_index 2 c) (log ++ a)).
Proof.
  intros Hi. destruct c as [g rq rs ws ps pa hn i fp mfp]. simpl in Hi. subst i.
  split; cbv -[app]; rewrite <- ?app_assoc; reflexivity.
Qed.
End Chain_facts.

(** *** The store, the reset and the forms *)


Section Store_facts.
Context {ChainRef World : Type}.
Implicit Types (c : CtxFields ChainRef) (g : GoContext ChainRef).

Lemma set_all_keeps_fields (sets : list (key * value ChainRef)) c :
  request (set_all sets c) = request c /\
  response (set_all sets c) = response c /\
  params (set_all sets c) = params c /\
  index (set_all sets c) = index c /\
  formParsed (set_all sets c) = formParsed c.
Proof.
  revert c. induction sets as [|[k v] sets IH]; intros c; simpl; [auto|].
  destruct (IH (Ctx_Set k v c)) as (-> & -> & -> & -> & ->). auto.
Qed.

(** X4.  Calls of [Set] on other keys change neither what [Get] reports
    for a key nor the parameters, the cursor or the response. *)
Theorem Set_keeps_other_keys (sets : list (key * value ChainRef)) (k : key) c :
  k ∉ sets.*1 ->
  Ctx_Get k (set_all sets c) = Ctx_Get k c /\
  params (set_all sets c) = params c /\
  index (set_all sets c) = index c /\
  response (set_all sets c) = response c.
Proof.
  intros Hk. split.
  - revert c. induction sets as [|[k' v'] sets IH]; intros c; simpl.
    + reflexivity.
    + rewrite fmap_cons in Hk. apply not_elem_of_cons in Hk as [Hne Hk].
      rewrite IH by assumption. apply Get_Set_other.
      simpl in Hne. congruence.
  - destruct (set_all_keeps_fields sets c) as (_ & Hr & Hp & Hi & _). auto.
Qed.

(** X5.  For a parent [g] made from [context.Background] by calls of
    [WithValue] (the contexts of [WithCancel], [WithDeadline] and
    [WithTimeout], and the [Ctx] itself given as its own parent, are not
    such parents), [Ctx.WithValue] replaces the store of the context by the
    parent and the new entry: [Get] finds the new entry when its key is
    [==] to itself, reads every other key and a NaN key from the parent,
    and no longer finds what [Set] stored before unless the parent holds
    it; with the context's own store as parent it is [Set]. *)
Theorem WithValue_replaces_store g (k : key) (v : value ChainRef) c :
  (Ctx_WithValue g k v c).1 = Context_ (Ctx_WithValue g k v c).2 /\
  (k <> KNaN -> Ctx_Get k (Ctx_WithValue g k v c).2 = (v, negb (is_nil v))) /\
  (forall k', k' <> k ->
     Ctx_Get k' (Ctx_WithValue g k v c).2 = Ctx_Get k' (set_Context g c)) /\
  Ctx_Get KNaN (Ctx_WithValue g k v c).2 = Ctx_Get KNaN (set_Context g c) /\
  (forall sets k', k' <> k ->
     Ctx_Get k' (Ctx_WithValue Background k v (set_all sets c)).2
       = (VNil, false)) /\
  (Ctx_WithValue (Context_ c) k v c).2 = Ctx_Set k v c.
Proof.
  split; [reflexivity|]. split; [|split; [|split; [|split]]].
  - intros Hnan. unfold Ctx_Get, Ctx_WithValue. simpl.
    rewrite key_eq_refl by assumption. reflexivity.
  - intros k' Hne. unfold Ctx_Get, Ctx_WithValue. simpl.
    rewrite key_eq_other by congruence. reflexivity.
  - unfold Ctx_Get, Ctx_WithValue. simpl. rewrite key_eq_NaN_r. reflexivity.
  - intros sets k' Hne. unfold Ctx_Get, Ctx_WithValue. simpl.
    rewrite key_eq_other by congruence. reflexivity.
  - reflexivity.
Qed.

(** X6.  [RequestStart] assigns every field of [Ctx], or resets it (the
    response), but four: the websocket connection, the parent, the handler
    name and the backing array of the parameter slice.  A context reset by
    it depends on what the context held through these four only:
    [WebSocket] and [HandlerName] still answer with the connection and the
    name of the request before, the parent is the one of the request
    before, and a reset after another reset is the last reset. *)
Theorem RequestStart_forgets (w : ResponseWriter) (r : Request)
    (c1 c2 : Ctx ChainRef World) :
  backing (params (fields c1)) = backing (params (fields c2)) ->
  handlerName (fields c1) = handlerName (fields c2) ->
  websocket (fields c1) = websocket (fields c2) ->
  parent (fields c1) = parent (fields c2) ->
  RequestStart w r c1 = RequestStart w r c2 /\
  HandlerName (fields (RequestStart w r c1)) = HandlerName (fields c1) /\
  WebSocket (fields (RequestStart w r c1)) = WebSocket (fields c1) /\
  parent (fields (RequestStart w r c1)) = parent (fields c1) /\
  forall w' r', RequestStart w r (RequestStart w' r' c1) = RequestStart w r c1.
Proof.
  intros Hb Hn Hw Hp.
  assert (Heq : forall a b : Ctx ChainRef World,
            backing (params (fields a)) = backing (params (fields b)) ->
            handlerName (fields a) = handlerName (fields b) ->
            websocket (fields a) = websocket (fields b) ->
            parent (fields a) = parent (fields b) ->
            RequestStart w r a = RequestStart w r b).
  { intros [[ga rqa rsa wsa [ba la] paa hna ia fa ma] ha]
           [[gb rqb rsb wsb [bb lb] pab hnb ib fb mb] hb] Hb' Hn' Hw' Hp'.
    simpl in Hb', Hn', Hw', Hp'. subst. reflexivity. }
  split; [apply Heq; assumption|]. repeat (split; [reflexivity|]).
  intros w' r'. apply Heq; reflexivity.
Qed.

End Store_facts.

Section Form_facts.
Context {ChainRef : Type}.
Implicit Types (c : CtxFields ChainRef).

(** X7.  When the request's own [ParseForm] fails, [ParseForm] returns that
    error, adds no parameter and leaves the form unparsed, so that the next
    call parses again and, when it succeeds, adds every parameter once. *)
Theorem ParseForm_retries_after_error
    (parse1 parse2 : Request -> Request * option string)
    c (r r1 r2 : Request) (err : string) :
  request c = Some r ->
  formParsed c = false ->
  parse1 r = (r1, Some err) ->
  parse2 r1 = (r2, None) ->
  exists c1 c2 r3,
    ParseForm parse1 c = Returned (Some err) c1 /\
    request c1 = Some r1 /\
    formParsed c1 = false /\
    ParseForm parse2 c1 = Returned None c2 /\
    formParsed c2 = true /\
    request c2 = Some r3 /\
    forall k, values_of (Form r3) k =
      values_of (Form r2) k
        ++ (Value <$> filter (fun e => Key e = k) (elems (params c))).
Proof.
  intros Hreq Hflag Hp1 Hp2.
  exists (set_request (Some r1) c). eexists _, _.
  unfold ParseForm at 1. rewrite Hflag, Hreq, Hp1.
  split; [reflexivity|]. split; [reflexivity|]. split; [exact Hflag|].
  unfold ParseForm. simpl. rewrite Hflag, Hp2.
  split; [reflexivity|]. split; [reflexivity|]. split; [reflexivity|].
  intros k. simpl. apply values_of_add_params.
Qed.

(** X8.  [ParseForm] and [ParseMultipartForm] keep separate flags and both
    add the parameters: after one successful call of each, on a request
    whose multipart parsing keeps the form, every parameter is in the form
    twice. *)
Theorem ParseForm_then_ParseMultipartForm_adds_twice
    (parse : Request -> Request * option string)
    (mparse : Z -> Request -> Request * option string) (maxMemory : Z)
    c (r r1 r2 : Request) :
  request c = Some r ->
  formParsed c = false ->
  multipartFormParsed c = false ->
  parse r = (r1, None) ->
  mparse maxMemory (set_Form (add_params (elems (params c)) (Form r1)) r1)
    = (r2, None) ->
  Form r2 = add_params (elems (params c)) (Form r1) ->
  exists c1 c2 r3,
    ParseForm parse c = Returned None c1 /\
    ParseMultipartForm mparse maxMemory c1 = Returned None c2 /\
    request c2 = Some r3 /\
    formParsed c2 = true /\ multipartFormParsed c2 = true /\
    forall k, values_of (Form r3) k =
      values_of (Form r1) k
        ++ (Value <$> filter (fun e => Key e = k) (elems (params c)))
        ++ (Value <$> filter (fun e => Key e = k) (elems (params c))).
Proof.
  intros Hreq Hflag Hmflag Hparse Hmparse Hkeeps.
  eexists _, _, _.
  unfold ParseForm. rewrite Hflag, Hreq, Hparse.
  split; [reflexivity|].
  unfold ParseMultipartForm. simpl. rewrite Hmflag, Hmparse.
  split; [reflexivity|]. split; [reflexivity|].
  split; [reflexivity|]. split; [reflexivity|].
  intros k. simpl. rewrite values_of_add_params, Hkeeps, values_of_add_params.
  rewrite <- app_assoc. reflexivity.
Qed.

End Form_facts.

(** *** [ClientIP] *)

Lemma has_byte_app (c : ascii) (a b : string) :
  has_byte c (a +:+ b) = has_byte c a || has_byte c b.
Proof.
  induction a as [|x a IH]; [reflexivity|].
  rewrite append_cons. simpl. rewrite IH, orb_assoc. reflexivity.
Qed.

Lemma has_byte_repeat_other (c d : ascii) (n : nat) :
  d <> c -> has_byte c (repeat_byte d n) = false.
Proof.
  intros Hne. induction n as [|n IH]; [reflexivity|]. simpl.
  rewrite IH, bool_decide_eq_false_2 by assumption. reflexivity.
Qed.

Lemma strings_length_IndexByte (a b : string) (c : ascii) :
  has_byte c a = false ->
  strings_IndexByte (a +:+ String c b) c = Z.of_nat (String.length a).
Proof.
  induction a as [|x a IH]; intros Ha.
  - rewrite append_nil_l. simpl.
    destruct (decide (c = c)); [reflexivity | congruence].
  - rewrite append_cons. simpl in Ha. apply orb_false_elim in Ha as [Hx Ha].
    apply bool_decide_eq_false in Hx. cbn [strings_IndexByte].
    destruct (decide (x = c)); [contradiction|].
    rewrite IH by assumption.
    destruct (decide (Z.of_nat (String.length a) < 0)); [lia|].
    cbn [String.length]. lia.
Qed.

Lemma IndexByte_absent (a : string) (c : ascii) :
  has_byte c a = false -> strings_IndexByte a c = -1.
Proof.
  induction a as [|x a IH]; intros Ha; [reflexivity|].
  simpl in Ha. apply orb_false_elim in Ha as [Hx Ha].
  apply bool_decide_eq_false in Hx. cbn [strings_IndexByte].
  destruct (decide (x = c)); [contradiction|].
  rewrite IH by assumption. reflexivity.
Qed.

Lemma slice_to_length_app (a b : string) :
  slice_to (a +:+ b) (Z.of_nat (String.length a)) = a.
Proof.
  unfold slice_to. rewrite Nat2Z.id.
  induction a as [|x a IH].
  - rewrite append_nil_l. destruct b; reflexivity.
  - rewrite append_cons. simpl. rewrite IH. reflexivity.
Qed.

(** The canonical form of a header name is canonical. *)

Lemma canonical_byte_token (u : bool) (c : ascii) :
  is_token_byte (canonical_byte u c) = is_token_byte c.
Proof.
  destruct u, c as [[] [] [] [] [] [] [] []]; vm_compute; reflexivity.
Qed.

Lemma canonical_byte_idempotent (u : bool) (c : ascii) :
  canonical_byte u (canonical_byte u c) = canonical_byte u c.
Proof.
  destruct u, c as [[] [] [] [] [] [] [] []]; vm_compute; reflexivity.
Qed.

Lemma canonical_loop_token (u : bool) (s : string) :
  all_token_bytes (canonical_loop u s) = all_token_bytes s.
Proof.
  revert u. induction s as [|c s IH]; intros u; simpl; [reflexivity|].
  rewrite canonical_byte_token, IH. reflexivity.
Qed.

Lemma canonical_loop_idempotent (u : bool) (s : string) :
  canonical_loop u (canonical_loop u s) = canonical_loop u s.
Proof.
  revert u. induction s as [|c s IH]; intros u; simpl; [reflexivity|].
  rewrite canonical_byte_idempotent, IH. reflexivity.
Qed.

Lemma CanonicalMIMEHeaderKey_idempotent (s : string) :
  CanonicalMIMEHeaderKey (CanonicalMIMEHeaderKey s) = CanonicalMIMEHeaderKey s.
Proof.
  unfold CanonicalMIMEHeaderKey.
  destruct (all_token_bytes s) eqn:Htok.
  - rewrite canonical_loop_token, Htok. apply canonical_loop_idempotent.
  - rewrite Htok. reflexivity.
Qed.

Section ClientIP_facts.
Variable TrimSpace : string -> string.
Variable SplitHostPort_host : string -> string.

Lemma canonical_XRealIP : CanonicalMIMEHeaderKey XRealIP = "X-Real-Ip".
Proof. vm_compute. reflexivity. Qed.

Lemma canonical_keys_no_XRealIP (Header : Values) :
  canonical_keys Header -> Header !! XRealIP = None.
Proof.
  intros Hcanon. destruct (Header !! XRealIP) as [vs|] eqn:Hl; [|reflexivity].
  apply Hcanon in Hl. rewrite canonical_XRealIP in Hl. discriminate Hl.
Qed.

Lemma canonical_keys_Header_Set (name value : string) (Header : Values) :
  canonical_keys Header -> canonical_keys (Header_Set name value Header).
Proof.
  intros Hcanon. apply map_Forall_insert_2; [|assumption].
  apply CanonicalMIMEHeaderKey_idempotent.
Qed.

(** X9.  [ClientIP] reads the [X-Real-IP] header under the map key
    ["X-Real-IP"], which is not the canonical form of that name
    (["X-Real-Ip"]).  A header map that holds values under the literal key
    gets the first of them, trimmed and not blank, as the answer.  On a
    header map whose keys are canonical the header is never read: setting
    [X-Real-IP] with [Header.Set] keeps the keys canonical and changes
    nothing in the answer, which is the one of [RemoteAddr] when there is
    no [X-Forwarded-For]. *)
Theorem ClientIP_real_ip_literal_key (Header : Values)
    (RemoteAddr : string) :
  (forall v0 more,
     values_of Header XRealIP = v0 :: more -> TrimSpace v0 <> blank ->
     ClientIP TrimSpace SplitHostPort_host Header RemoteAddr = TrimSpace v0) /\
  (canonical_keys Header ->
   forall value,
     canonical_keys (Header_Set XRealIP value Header) /\
     ClientIP TrimSpace SplitHostPort_host (Header_Set XRealIP value Header)
       RemoteAddr
     = ClientIP TrimSpace SplitHostPort_host Header RemoteAddr /\
     (values_of Header XForwardedFor = [] ->
      ClientIP TrimSpace SplitHostPort_host (Header_Set XRealIP value Header)
        RemoteAddr
      = SplitHostPort_host (TrimSpace RemoteAddr))).
Proof.
  split.
  - intros v0 more Hreal Hne. unfold ClientIP. rewrite Hreal.
    destruct (decide (TrimSpace v0 <> blank)); [reflexivity | contradiction].
  - intros Hcanon value.
    assert (Hreal : values_of (Header_Set XRealIP value Header) XRealIP = []).
    { unfold values_of, Header_Set. rewrite canonical_XRealIP.
      rewrite lookup_insert_ne by discriminate.
      rewrite canonical_keys_no_XRealIP by assumption. reflexivity. }
    assert (Hfwd : values_of (Header_Set XRealIP value Header) XForwardedFor
                   = values_of Header XForwardedFor).
    { unfold values_of, Header_Set. rewrite canonical_XRealIP.
      rewrite lookup_insert_ne by discriminate. reflexivity. }
    assert (Hnone : values_of Header XRealIP = []).
    { unfold values_of. rewrite canonical_keys_no_XRealIP by assumption.
      reflexivity. }
    split; [|split].
    + apply canonical_keys_Header_Set. assumption.
    + unfold ClientIP. rewrite Hreal, Hfwd, Hnone. reflexivity.
    + intros Hnofwd. unfold ClientIP. rewrite Hreal, Hfwd, Hnofwd. reflexivity.
Qed.

Lemma first_hop_cut (first : string) (others : option string) :
  has_byte commaByte first = false ->
  (if decide (strings_IndexByte (with_hops first others) commaByte >= 0)
   then slice_to (with_hops first others)
          (strings_IndexByte (with_hops first others) commaByte)
   else with_hops first others) = first.
Proof.
  intros Hcomma. unfold with_hops. destruct others as [o|].
  - rewrite strings_length_IndexByte by assumption.
    rewrite slice_to_length_app.
    destruct (decide (Z.of_nat (String.length first) >= 0)); [reflexivity | lia].
  - rewrite append_nil_r, IndexByte_absent by assumption.
    destruct (decide (-1 >= 0)); [lia | reflexivity].
Qed.

(** X10.  Without a usable [X-Real-IP], [ClientIP] reads the first value
    of [X-Forwarded-For] up to its first comma: that first hop, trimmed, is
    the answer when it is not blank; when it is blank the answer comes from
    [RemoteAddr], also when later hops are not blank. *)
Theorem ClientIP_forwarded_first_hop (Header : Values)
    (RemoteAddr first : string) (others : option string) (more : list string) :
  match values_of Header XRealIP with
  | v0 :: _ => TrimSpace v0 = blank
  | [] => True
  end ->
  values_of Header XForwardedFor = with_hops first others :: more ->
  has_byte commaByte first = false ->
  ClientIP TrimSpace SplitHostPort_host Header RemoteAddr
    = if decide (TrimSpace first <> blank) then TrimSpace first
      else SplitHostPort_host (TrimSpace RemoteAddr).
Proof.
  intros Hreal Hfwd Hcomma. unfold ClientIP.
  rewrite Hfwd. cbv zeta. rewrite first_hop_cut by assumption.
  destruct (values_of Header XRealIP) as [|v0 vs]; [reflexivity|].
  rewrite Hreal. destruct (decide (blank <> blank)); [congruence | reflexivity].
Qed.

End ClientIP_facts.

(** *** [AcceptedLanguages] *)

Lemma strings_Split_nonempty (s : string) (sep : ascii) :
  strings_Split s sep <> [].
Proof.
  induction s as [|c s IH]; simpl; [discriminate|].
  destruct (decide (c = sep)); [discriminate|].
  destruct (strings_Split s sep); discriminate.
Qed.

Lemma strings_Split_length (s : string) (sep : ascii) :
  length (strings_Split s sep) = S (count_byte sep s).
Proof.
  induction s as [|c s IH]; [reflexivity|]. simpl.
  destruct (decide (c = sep)); simpl.
  - rewrite IH. reflexivity.
  - pose proof (strings_Split_nonempty s sep) as Hne.
    destruct (strings_Split s sep) as [|p ps]; [congruence|].
    simpl in *. exact IH.
Qed.

Lemma strings_Split_app (p rest : string) (sep : ascii) :
  has_byte sep p = false ->
  strings_Split (p +:+ String sep rest) sep = p :: strings_Split rest sep.
Proof.
  induction p as [|c p IH]; intros Hp.
  - rewrite append_nil_l. simpl.
    destruct (decide (sep = sep)); [reflexivity | congruence].
  - rewrite append_cons. simpl in Hp. apply orb_false_elim in Hp as [Hc Hp].
    apply bool_decide_eq_false in Hc. cbn [strings_Split].
    destruct (decide (c = sep)); [contradiction|].
    rewrite IH by assumption. reflexivity.
Qed.

Lemma strings_Split_whole (p : string) (sep : ascii) :
  has_byte sep p = false -> strings_Split p sep = [p].
Proof.
  induction p as [|c p IH]; intros Hp; [reflexivity|].
  simpl in Hp. apply orb_false_elim in Hp as [Hc Hp].
  apply bool_decide_eq_false in Hc. cbn [strings_Split].
  destruct (decide (c = sep)); [contradiction|].
  rewrite IH by assumption. reflexivity.
Qed.

Lemma strings_Split_join (pieces : list string) :
  pieces <> [] ->
  Forall (fun p => has_byte commaByte p = false) pieces ->
  strings_Split (join_commas pieces) commaByte = pieces.
Proof.
  induction pieces as [|p pieces IH]; intros Hne Hall; [congruence|].
  apply Forall_cons in Hall as [Hp Hall].
  destruct pieces as [|q pieces].
  - simpl. apply strings_Split_whole. assumption.
  - change (join_commas (p :: q :: pieces))
      with (p +:+ String commaByte (join_commas (q :: pieces))).
    rewrite strings_Split_app by assumption.
    rewrite IH; [reflexivity | discriminate | assumption].
Qed.

Lemma locale_0_with_parameters (a q : string) :
  has_byte semicolonByte a = false ->
  locale_0 (a +:+ String semicolonByte q) = a.
Proof.
  unfold locale_0. induction a as [|c a IH]; intros Ha.
  - rewrite append_nil_l. simpl.
    destruct (decide (semicolonByte = semicolonByte)); [reflexivity | congruence].
  - rewrite append_cons. simpl in Ha. apply orb_false_elim in Ha as [Hc Ha].
    apply bool_decide_eq_false in Hc. cbn [strings_SplitN2].
    destruct (decide (c = semicolonByte)); [contradiction|].
    specialize (IH Ha).
    destruct (strings_SplitN2 (a +:+ String semicolonByte q) semicolonByte)
      as [|l0 ls]; unfold blank in *; simpl in *; congruence.
Qed.

Lemma locale_0_without_parameters (a : string) :
  has_byte semicolonByte a = false -> locale_0 a = a.
Proof.
  unfold locale_0. induction a as [|c a IH]; intros Ha; [reflexivity|].
  simpl in Ha. apply orb_false_elim in Ha as [Hc Ha].
  apply bool_decide_eq_false in Hc. cbn [strings_SplitN2].
  destruct (decide (c = semicolonByte)); [contradiction|].
  specialize (IH Ha).
  destruct (strings_SplitN2 a semicolonByte) as [|l0 ls];
    unfold blank in *; simpl in *; congruence.
Qed.

Lemma locale_0_no_semicolon (o : string) :
  has_byte semicolonByte (locale_0 o) = false.
Proof.
  unfold locale_0. induction o as [|c o IH]; [reflexivity|].
  cbn [strings_SplitN2].
  destruct (decide (c = semicolonByte)) as [|Hne]; [reflexivity|].
  destruct (strings_SplitN2 o semicolonByte) as [|l0 ls]; simpl.
  - rewrite bool_decide_eq_false_2 by assumption. reflexivity.
  - rewrite bool_decide_eq_false_2 by assumption. exact IH.
Qed.

Lemma TrimLeft_repeat (c : ascii) (n : nat) (s : string) :
  strings_TrimLeft (repeat_byte c n +:+ s) c = strings_TrimLeft s c.
Proof.
  induction n as [|n IH]; [reflexivity|].
  simpl repeat_byte. rewrite append_cons. cbn [strings_TrimLeft].
  destruct (decide (c = c)); [exact IH | congruence].
Qed.

Lemma TrimLeft_id (c : ascii) (s : string) :
  starts_with c s = false -> strings_TrimLeft s c = s.
Proof.
  destruct s as [|x s]; [reflexivity|]. simpl. intros Hx.
  apply bool_decide_eq_false in Hx.
  destruct (decide (x = c)); [contradiction | reflexivity].
Qed.

Lemma TrimLeft_no_lead (c : ascii) (s : string) :
  starts_with c (strings_TrimLeft s c) = false.
Proof.
  induction s as [|x s IH]; [reflexivity|]. cbn [strings_TrimLeft].
  destruct (decide (x = c)) as [|Hne]; [exact IH|].
  simpl. apply bool_decide_eq_false_2. assumption.
Qed.

Lemma TrimLeft_has_byte (c d : ascii) (s : string) :
  has_byte d s = false -> has_byte d (strings_TrimLeft s c) = false.
Proof.
  induction s as [|x s IH]; [reflexivity|]. intros Hs. cbn [strings_TrimLeft].
  destruct (decide (x = c)); [|exact Hs].
  simpl in Hs. apply orb_false_elim in Hs as [_ Hs]. apply IH. assumption.
Qed.

Lemma TrimRight_repeat (c : ascii) (n : nat) :
  strings_TrimRight (repeat_byte c n) c = EmptyString.
Proof.
  induction n as [|n IH]; [reflexivity|]. simpl. rewrite IH.
  destruct (decide (c = c)); [reflexivity | congruence].
Qed.

Lemma TrimRight_app_repeat (c : ascii) (n : nat) (s : string) :
  strings_TrimRight (s +:+ repeat_byte c n) c = strings_TrimRight s c.
Proof.
  induction s as [|x s IH].
  - rewrite append_nil_l. apply TrimRight_repeat.
  - rewrite append_cons. cbn [strings_TrimRight]. rewrite IH. reflexivity.
Qed.

Lemma TrimRight_id (c : ascii) (s : string) :
  ends_with c s = false -> strings_TrimRight s c = s.
Proof.
  induction s as [|x s IH]; [reflexivity|]. intros Hs.
  cbn [strings_TrimRight]. destruct s as [|y s].
  - simpl in *. apply bool_decide_eq_false in Hs.
    destruct (decide (x = c)); [contradiction | reflexivity].
  - rewrite IH by exact Hs. reflexivity.
Qed.

Lemma TrimRight_no_trail (c : ascii) (s : string) :
  ends_with c (strings_TrimRight s c) = false.
Proof.
  induction s as [|x s IH]; [reflexivity|]. cbn [strings_TrimRight].
  destruct (strings_TrimRight s c) as [|y t].
  - destruct (decide (x = c)) as [|Hne]; [reflexivity|].
    simpl. apply bool_decide_eq_false_2. assumption.
  - exact IH.
Qed.

Lemma TrimRight_no_lead (c : ascii) (s : string) :
  starts_with c s = false -> starts_with c (strings_TrimRight s c) = false.
Proof.
  destruct s as [|x s]; [reflexivity|]. intros Hs. cbn [strings_TrimRight].
  destruct (strings_TrimRight s c) as [|y t].
  - destruct (decide (x = c)); [reflexivity | exact Hs].
  - exact Hs.
Qed.

Lemma TrimRight_has_byte (c d : ascii) (s : string) :
  has_byte d s = false -> has_byte d (strings_TrimRight s c) = false.
Proof.
  induction s as [|x s IH]; [reflexivity|]. intros Hs.
  simpl in Hs. apply orb_false_elim in Hs as [Hx Hs].
  specialize (IH Hs). cbn [strings_TrimRight].
  destruct (strings_TrimRight s c) as [|y t].
  - destruct (decide (x = c)); [reflexivity|]. simpl. rewrite Hx. reflexivity.
  - simpl. rewrite Hx. exact IH.
Qed.

Lemma Trim_between_spaces (n1 n2 : nat) (t : string) :
  starts_with spaceByte t = false -> ends_with spaceByte t = false ->
  strings_Trim (repeat_byte spaceByte n1 +:+ t +:+ repeat_byte spaceByte n2)
    spaceByte = t.
Proof.
  intros Hlead Htrail. unfold strings_Trim.
  rewrite TrimLeft_repeat.
  assert (Hl : starts_with spaceByte (t +:+ repeat_byte spaceByte n2) = false
               \/ t = EmptyString).
  { destruct t as [|x t]; [right; reflexivity | left; exact Hlead]. }
  destruct Hl as [Hl | ->].
  - rewrite TrimLeft_id by exact Hl. rewrite TrimRight_app_repeat.
    apply TrimRight_id. exact Htrail.
  - rewrite append_nil_l.
    rewrite <- (append_nil_r (repeat_byte spaceByte n2)), TrimLeft_repeat.
    reflexivity.
Qed.

Lemma strings_Split_no_sep (s : string) (sep : ascii) (p : string) :
  p ∈ strings_Split s sep -> has_byte sep p = false.
Proof.
  revert p. induction s as [|c s IH]; intros p Hp.
  - simpl in Hp. apply list_elem_of_singleton in Hp. subst p. reflexivity.
  - cbn [strings_Split] in Hp. destruct (decide (c = sep)) as [|Hne].
    + apply elem_of_cons in Hp as [-> | Hp]; [reflexivity | apply IH, Hp].
    + destruct (strings_Split s sep) as [|q qs].
      * apply list_elem_of_singleton in Hp. subst p. simpl.
        rewrite bool_decide_eq_false_2 by assumption. reflexivity.
      * apply elem_of_cons in Hp as [-> | Hp].
        -- simpl. rewrite bool_decide_eq_false_2 by assumption.
           apply IH. left.
        -- apply IH. right. exact Hp.
Qed.

Lemma locale_0_has_byte (d : ascii) (o : string) :
  has_byte d o = false -> has_byte d (locale_0 o) = false.
Proof.
  unfold locale_0. induction o as [|c o IH]; [reflexivity|]. intros Ho.
  simpl in Ho. apply orb_false_elim in Ho as [Hc Ho]. specialize (IH Ho).
  cbn [strings_SplitN2].
  destruct (decide (c = semicolonByte)); [reflexivity|].
  destruct (strings_SplitN2 o semicolonByte) as [|l0 ls]; simpl.
  - rewrite Hc. reflexivity.
  - rewrite Hc. exact IH.
Qed.

Lemma append_assoc (a b c : string) : (a +:+ b) +:+ c = a +:+ b +:+ c.
Proof.
  induction a as [|x a IH]; [reflexivity|].
  rewrite !append_cons, IH. reflexivity.
Qed.

Lemma join_commas_cons_nonempty (p : string) (rest : list string) :
  p <> EmptyString -> join_commas (p :: rest) <> EmptyString.
Proof.
  intros Hp. destruct rest as [|q rest]; [exact Hp|].
  destruct p as [|x p]; [congruence|].
  change (join_commas (String x p :: q :: rest))
    with (String x p +:+ String commaByte (join_commas (q :: rest))).
  rewrite append_cons. discriminate.
Qed.

Lemma clean_tag_parts (t : string) :
  clean_tag t = true ->
  t <> EmptyString /\ has_byte commaByte t = false /\
  has_byte semicolonByte t = false /\
  starts_with spaceByte t = false /\ ends_with spaceByte t = false.
Proof.
  unfold clean_tag. intros H.
  repeat (apply andb_prop in H as [H ?]).
  repeat match goal with
         | Hn : negb _ = true |- _ => apply negb_true_iff in Hn
         end.
  apply bool_decide_eq_false in H. auto.
Qed.

Lemma render_option_clean (o : language_option) :
  clean_option o = true ->
  render_option o <> EmptyString /\
  has_byte commaByte (render_option o) = false /\
  strings_Trim (locale_0 (render_option o)) spaceByte = tag o.
Proof.
  unfold clean_option. intros H. apply andb_prop in H as [Htag Hq].
  apply clean_tag_parts in Htag as (Hne & Hcomma & Hsemi & Hlead & Htrail).
  unfold render_option. repeat split.
  - destruct (tag o) as [|x t] eqn:Ht; [congruence|].
    destruct (lead o); simpl repeat_byte; rewrite ?append_nil_l, !append_cons;
      discriminate.
  - rewrite !has_byte_app, Hcomma.
    rewrite !has_byte_repeat_other by discriminate.
    destruct (parameters o) as [q|]; [|reflexivity].
    simpl. apply negb_true_iff in Hq. rewrite Hq. reflexivity.
  - assert (Hbody : has_byte semicolonByte
              (repeat_byte spaceByte (lead o) +:+ tag o
               +:+ repeat_byte spaceByte (trail o)) = false).
    { rewrite !has_byte_app, Hsemi.
      rewrite !has_byte_repeat_other by discriminate. reflexivity. }
    rewrite <- !append_assoc. rewrite (append_assoc _ (tag o)).
    destruct (parameters o) as [q|].
    + rewrite locale_0_with_parameters by exact Hbody.
      apply Trim_between_spaces; assumption.
    + rewrite append_nil_r, locale_0_without_parameters by exact Hbody.
      apply Trim_between_spaces; assumption.
Qed.

Section AcceptedLanguages_facts.
Variable AcceptedLanguage : string.
Variable ToLower : string -> string.

(** X11.  [AcceptedLanguages] answers with the empty slice when the header
    is absent or blank; otherwise with one entry per comma-separated option
    of its first value, empty options included, so with one entry more than
    there are commas; and the [lowercase] flag changes nothing but the case
    of the entries. *)
Theorem AcceptedLanguages_one_per_option (Header : Values) (lowercase : bool) :
  (Header_Get Header AcceptedLanguage = blank ->
     AcceptedLanguages AcceptedLanguage ToLower Header lowercase = []) /\
  (Header_Get Header AcceptedLanguage <> blank ->
     length (AcceptedLanguages AcceptedLanguage ToLower Header lowercase)
       = S (count_byte commaByte (Header_Get Header AcceptedLanguage))) /\
  AcceptedLanguages AcceptedLanguage ToLower Header true
    = ToLower <$> AcceptedLanguages AcceptedLanguage ToLower Header false.
Proof.
  unfold AcceptedLanguages. repeat split.
  - intros Hb. destruct (decide _); [reflexivity | contradiction].
  - intros Hb. destruct (decide _); [contradiction|].
    destruct lowercase; rewrite length_fmap; apply strings_Split_length.
  - destruct (decide _); [reflexivity|].
    rewrite <- list_fmap_compose. reflexivity.
Qed.

(** X12.  Without lowering, no entry that [AcceptedLanguages] returns
    contains a semicolon or a comma, and none starts or ends with a space:
    the parameters of an option and the spaces around its tag are
    dropped. *)
Theorem AcceptedLanguages_entries_trimmed (Header : Values) (e : string) :
  e ∈ AcceptedLanguages AcceptedLanguage ToLower Header false ->
  has_byte semicolonByte e = false /\
  has_byte commaByte e = false /\
  starts_with spaceByte e = false /\
  ends_with spaceByte e = false.
Proof.
  unfold AcceptedLanguages. destruct (decide _) as [|Hne].
  - intros Hin. apply elem_of_nil in Hin. destruct Hin.
  - intros Hin. apply list_elem_of_fmap in Hin as (o & -> & Ho).
    unfold strings_Trim. repeat split.
    + apply TrimRight_has_byte, TrimLeft_has_byte, locale_0_no_semicolon.
    + apply TrimRight_has_byte, TrimLeft_has_byte, locale_0_has_byte.
      apply (strings_Split_no_sep _ _ _ Ho).
    + apply TrimRight_no_lead, TrimLeft_no_lead.
    + apply TrimRight_no_trail.
Qed.

(** X13.  [AcceptedLanguages] reads back what a header writes: for options
    made of a clean tag between any number of spaces, with or without
    parameters after a semicolon, joined by commas, it returns the tags in
    the order of the header. *)
Theorem AcceptedLanguages_reads_rendered (Header : Values)
    (options : list language_option) :
  options <> [] ->
  Forall (fun o => clean_option o = true) options ->
  Header_Get Header AcceptedLanguage
    = join_commas (render_option <$> options) ->
  AcceptedLanguages AcceptedLanguage ToLower Header false = tag <$> options.
Proof.
  intros Hne Hclean Hheader. unfold AcceptedLanguages. rewrite Hheader.
  destruct (decide (join_commas (render_option <$> options) = blank))
    as [Hblank|_].
  - exfalso. destruct options as [|o options]; [congruence|].
    apply Forall_cons in Hclean as [Ho _].
    apply render_option_clean in Ho as (Hrender & _).
    rewrite fmap_cons in Hblank.
    exact (join_commas_cons_nonempty _ _ Hrender Hblank).
  - rewrite strings_Split_join.
    + rewrite <- list_fmap_compose. apply Forall_fmap_ext_1.
      eapply Forall_impl; [exact Hclean|]. intros o Ho. simpl.
      apply render_option_clean. exact Ho.
    + destruct options; [congruence | discriminate].
    + apply Forall_fmap. eapply Forall_impl; [exact Hclean|].
      intros o Ho. simpl. apply render_option_clean. exact Ho.
Qed.
End AcceptedLanguages_facts.

(** *** The response helpers, [Register404] and the 405 handler *)


Section Helper_facts.
Context {V : Type}.
Variable json_Marshal : V -> string + string.
Variable xml_Marshal : V -> string + string.
Variable response_Write : string -> Response -> Response * option string.

(** X14.  When marshalling fails, [JSON], [JSONP] and [XML] return the
    error of the marshaller and leave the response as it was: no header, no
    status and no byte is written. *)
Theorem marshal_error_writes_nothing (code : Z) (i : V) (callback err : string)
    (r : Response) :
  (json_Marshal i = inr err ->
     JSON json_Marshal response_Write code i r = (r, Some err) /\
     JSONP json_Marshal response_Write code i callback r = (r, Some err)) /\
  (xml_Marshal i = inr err ->
     XML xml_Marshal response_Write code i r = (r, Some err)).
Proof.
  split.
  - intros Hm. unfold JSON, JSONP. rewrite Hm. split; reflexivity.
  - intros Hm. unfold XML. rewrite Hm. reflexivity.
Qed.

Lemma ready_header (contentType : string) (code : Z) (r : Response) :
  values_of (header (ready contentType code r)) ContentType = [contentType] /\
  (forall name, name <> ContentType ->
     header (ready contentType code r) !! name = header r !! name) /\
  committed (ready contentType code r) = true /\
  status (ready contentType code r)
    = (if committed r then status r else code) /\
  body (ready contentType code r) = body r.
Proof.
  unfold ready, WriteHeader, with_header, SetHeader, values_of. simpl.
  destruct (committed r) eqn:Hc; simpl; rewrite ?lookup_insert_eq;
    repeat split; try assumption;
    intros name Hne; apply lookup_insert_ne; congruence.
Qed.

(** X15.  When marshalling succeeds, [JSONP] replaces the content type by
    the JavaScript one and writes the status before any byte of the body;
    it then writes the callback name with an opening parenthesis, the
    marshalled bytes and the closing [");"] in this order, and stops at the
    first write that fails, returning its error. *)
Theorem JSONP_writes_in_order (code : Z) (i : V) (callback b : string)
    (r : Response) :
  json_Marshal i = inl b ->
  exists r0,
    values_of (header r0) ContentType = [ApplicationJavaScriptCharsetUTF8] /\
    committed r0 = true /\
    (committed r = false -> status r0 = code) /\
    body r0 = body r /\
    JSONP json_Marshal response_Write code i callback r =
      match response_Write (callback +:+ "(") r0 with
      | (r1, Some err) => (r1, Some err)
      | (r1, None) =>
          match response_Write b r1 with
          | (r2, Some err) => (r2, Some err)
          | (r2, None) => response_Write ");" r2
          end
      end.
Proof.
  intros Hm. exists (ready ApplicationJavaScriptCharsetUTF8 code r).
  destruct (ready_header ApplicationJavaScriptCharsetUTF8 code r)
    as (Hct & _ & Hco & Hst & Hbody).
  split; [exact Hct|]. split; [exact Hco|]. split; [|split; [exact Hbody|]].
  - intros Hc. rewrite Hst, Hc. reflexivity.
  - unfold JSONP. rewrite Hm. reflexivity.
Qed.
End Helper_facts.

Section Lars_more_facts.
Context {ChainRef World Handler : Type}.
Variable wrapHandler : Handler -> HandlerFunc ChainRef World.
Variable range_keys : chainMethods ChainRef -> list string.


Implicit Types (m : Machine ChainRef World).

(** X17.  On a context whose store has no chain map under ["methods"]
    (no entry, or a value of another type), [methodNotAllowedHandler]
    panics on its type assertion and writes nothing. *)
Theorem methodNotAllowedHandler_needs_methods
    (next : M (Machine ChainRef World) unit) m :
  (forall methods,
     ContextValue (Context_ (ctx m)) (KString "methods") <> VMethods methods) ->
  methodNotAllowedHandler range_keys next m = Panicked TypeAssertion m.
Proof.
  intros Hnone. unfold methodNotAllowedHandler, Ctx_Get.
  destruct (ContextValue (Context_ (ctx m)) (KString "methods")) as [| | | |ms]
    eqn:Hv; try reflexivity.
  exfalso. exact (Hnone ms eq_refl).
Qed.

Lemma add_allow_other_headers (ks : list string) (r : Response) (name : string) :
  name <> "Allow" -> header (add_allow ks r) !! name = header r !! name.
Proof.
  intros Hne. revert r. induction ks as [|k ks IH]; intros r; simpl.
  - reflexivity.
  - rewrite IH. simpl. unfold Add. apply lookup_insert_ne. congruence.
Qed.

(** X18.  [methodNotAllowedHandler] adds its [Allow] values after those the
    response already has, in the order of the [range]; it changes no other
    header, writes no body and leaves the store and the captured state as
    they are. *)
Theorem methodNotAllowedHandler_appends
    (next : M (Machine ChainRef World) unit) m
    (methods : chainMethods ChainRef) :
  ContextValue (Context_ (ctx m)) (KString "methods") = VMethods methods ->
  exists m',
    methodNotAllowedHandler range_keys next m = Returned tt m' /\
    values_of (header (response (ctx m'))) "Allow"
      = values_of (header (response (ctx m))) "Allow" ++ range_keys methods /\
    (forall name, name <> "Allow" ->
       header (response (ctx m')) !! name = header (response (ctx m)) !! name) /\
    body (response (ctx m')) = body (response (ctx m)) /\
    Context_ (ctx m') = Context_ (ctx m) /\
    world m' = world m.
Proof.
  intros Hget. unfold methodNotAllowedHandler, Ctx_Get. rewrite Hget.
  eexists. split; [reflexivity|]. simpl.
  destruct (add_allow_status (range_keys methods) (response (ctx m)))
    as (Hst & Hco & Hbo).
  assert (Hh : header (WriteHeader StatusMethodNotAllowed
                         (add_allow (range_keys methods) (response (ctx m))))
               = header (add_allow (range_keys methods) (response (ctx m)))).
  { unfold WriteHeader. destruct (committed _); reflexivity. }
  assert (Hb : body (WriteHeader StatusMethodNotAllowed
                         (add_allow (range_keys methods) (response (ctx m))))
               = body (add_allow (range_keys methods) (response (ctx m)))).
  { unfold WriteHeader. destruct (committed _); reflexivity. }
  rewrite Hh, Hb. repeat split.
  - apply add_allow_header.
  - intros name Hne. apply add_allow_other_headers. exact Hne.
  - exact Hbo.
Qed.
End Lars_more_facts.

(** *** The properties above on concrete inputs *)

(** X1: two middlewares around a handler; the handler after it is not
    called. *)
Lemma Next_onion_any_length_witness :
  Next 3
    (wrappings [("enter1", "exit1"); ("enter2", "exit2")]
       ++ recording ["handler"] :: [final "never" "never"])
    (mkMachine (ctx_at (-1)) no_events)
  = Returned tt
      (mkMachine (set_index 2 (ctx_at (-1)))
         ["enter1"; "enter2"; "handler"; "exit2"; "exit1"]).
Proof.
  apply (Next_onion_any_length [("enter1", "exit1"); ("enter2", "exit2")]
           ["handler"] [final "never" "never"] 0 (ctx_at (-1)) no_events).
  - reflexivity.
  - reflexivity.
Defined.

(** X2: two middlewares and nothing after them. *)
Lemma Next_all_middlewares_panic_witness :
  Next 3 (wrappings ([("enter1", "exit1")] ++ [("enter2", "exit2")]))
    (mkMachine (ctx_at (-1)) no_events)
  = Panicked (IndexOutOfRange 2 2)
      (mkMachine (set_index 2 (ctx_at (-1))) ["enter1"; "enter2"]).
Proof.
  apply (Next_all_middlewares_panic [("enter1", "exit1")] "enter2" "exit2" 0
           (ctx_at (-1)) no_events).
  - reflexivity.
  - reflexivity.
Defined.

(** X3: the second call runs the third handler. *)
Lemma Next_twice_moves_on_witness :
  Next 2 [calling_twice; recording ["second"]; recording ["third"]]
    (mkMachine (ctx_at (-1)) no_events)
  = Returned tt (mkMachine (set_index 2 (ctx_at (-1))) ["second"; "third"]).
Proof.
  destruct (Next_twice_moves_on ["second"] ["third"] [] 0 (ctx_at (-1))
              no_events eq_refl) as [Hruns _].
  exact Hruns.
Defined.

(** X4: [user = alice] of the pooled context survives a [Set] on [id]. *)
Lemma Set_keeps_other_keys_witness :
  Ctx_Get (KString "user")
    (set_all [(KString "id", VInt 7)] (fields pooled_ctx))
  = (VString "alice", true).
Proof.
  destruct (Set_keeps_other_keys [(KString "id", VInt 7)] (KString "user")
              (fields pooled_ctx)) as [Hget _].
  - intros Hin. apply elem_of_cons in Hin as [Heq | Hin];
      [discriminate Heq | apply elem_of_nil in Hin; exact Hin].
  - rewrite Hget. reflexivity.
Defined.

(** X5: [WithValue] on the background parent loses [user = alice]. *)
Lemma WithValue_replaces_store_witness :
  Ctx_Get (KString "user")
    (Ctx_WithValue Background (KString "id") (VInt 7)
       (set_all [] (fields pooled_ctx))).2
  = (VNil, false).
Proof.
  destruct (WithValue_replaces_store Background (KString "id") (VInt 7)
              (fields pooled_ctx)) as (_ & _ & _ & _ & Hlost & _).
  apply (Hlost [] (KString "user")). discriminate.
Defined.

(** X6: the context of an upgraded request and the same context already
    reset once; the connection of the upgraded request is still there. *)
Lemma RequestStart_forgets_witness :
  RequestStart blank_writer (mkRequest GET "/" ∅) upgraded_ctx
  = RequestStart blank_writer (mkRequest GET "/" ∅)
      (RequestStart blank_writer (mkRequest POST "/users/9" ∅) upgraded_ctx)
  /\ WebSocket
       (fields (RequestStart blank_writer (mkRequest GET "/" ∅) upgraded_ctx))
     = Some 1.
Proof.
  destruct (RequestStart_forgets blank_writer (mkRequest GET "/" ∅)
              upgraded_ctx
              (RequestStart blank_writer (mkRequest POST "/users/9" ∅)
                 upgraded_ctx) eq_refl eq_refl eq_refl eq_refl)
    as (Hsame & _ & Hws & _).
  split; [exact Hsame | rewrite Hws; reflexivity].
Defined.

(** X7: a failing parse, then the parse that finds [q=go]. *)
Lemma ParseForm_retries_after_error_witness :
  exists c1 c2 r3,
    ParseForm parse_fails search_ctx = Returned (Some "malformed form") c1 /\
    ParseForm parse_query c1 = Returned None c2 /\
    request c2 = Some r3 /\
    values_of (Form r3) "q" = ["go"; "lars"].
Proof.
  destruct (ParseForm_retries_after_error parse_fails parse_query search_ctx
              (mkRequest GET "/search/lars" ∅)
              (mkRequest GET "/search/lars" ∅)
              (set_Form {["q" := ["go"]]} (mkRequest GET "/search/lars" ∅))
              "malformed form" eq_refl eq_refl eq_refl eq_refl)
    as (c1 & c2 & r3 & Hfail & _ & _ & Hretry & _ & Hreq & Hform).
  exists c1, c2, r3. repeat split; try assumption.
  rewrite Hform. reflexivity.
Defined.

(** X8: [q = lars] is added by each of the two calls. *)
Lemma ParseForm_then_ParseMultipartForm_adds_twice_witness :
  exists c1 c2 r3,
    ParseForm parse_query search_ctx = Returned None c1 /\
    ParseMultipartForm parse_no_parts 1024 c1 = Returned None c2 /\
    request c2 = Some r3 /\
    values_of (Form r3) "q" = ["go"; "lars"; "lars"].
Proof.
  destruct (ParseForm_then_ParseMultipartForm_adds_twice parse_query
              parse_no_parts 1024 search_ctx
              (mkRequest GET "/search/lars" ∅)
              (set_Form {["q" := ["go"]]} (mkRequest GET "/search/lars" ∅))
              (set_Form
                 (add_params (elems (params search_ctx)) {["q" := ["go"]]})
                 (set_Form {["q" := ["go"]]} (mkRequest GET "/search/lars" ∅)))
              eq_refl eq_refl eq_refl eq_refl eq_refl eq_refl)
    as (c1 & c2 & r3 & Hfirst & Hsecond & Hreq & _ & _ & Hform).
  exists c1, c2, r3. repeat split; try assumption.
  rewrite Hform. reflexivity.
Defined.

(** X9: a parsed request that carries [X-Real-IP: 10.0.0.1] behind a
    proxy: the header is under ["X-Real-Ip"] and the answer is the hop of
    [X-Forwarded-For]. *)
Lemma ClientIP_real_ip_literal_key_witness :
  Header_Set XRealIP "10.0.0.1" proxy_header
    = {[ "X-Real-Ip" := ["10.0.0.1"]; XForwardedFor := ["203.0.113.7"] ]} /\
  ClientIP trim_spaces host_before_colon
    (Header_Set XRealIP "10.0.0.1" proxy_header) "192.0.2.1:4711"
  = "203.0.113.7".
Proof.
  split; [vm_compute; reflexivity|].
  assert (Hcanon : canonical_keys proxy_header).
  { apply map_Forall_singleton. vm_compute. reflexivity. }
  destruct (ClientIP_real_ip_literal_key trim_spaces host_before_colon
              proxy_header "192.0.2.1:4711") as [_ Hmiss].
  destruct (Hmiss Hcanon "10.0.0.1") as (_ & Hsame & _).
  rewrite Hsame. vm_compute. reflexivity.
Defined.

(** X10: the first hop of [X-Forwarded-For]. *)
Lemma ClientIP_forwarded_first_hop_witness :
  ClientIP trim_spaces host_before_colon forwarded_header "192.0.2.1:4711"
  = "203.0.113.7".
Proof.
  assert (Hnone : match values_of forwarded_header XRealIP with
                  | v0 :: _ => trim_spaces v0 = blank
                  | [] => True
                  end) by (vm_compute; exact I).
  assert (Hfwd : values_of forwarded_header XForwardedFor
                 = [with_hops "203.0.113.7" (Some " 10.0.0.2")])
    by (vm_compute; reflexivity).
  rewrite (ClientIP_forwarded_first_hop trim_spaces host_before_colon
             forwarded_header "192.0.2.1:4711" "203.0.113.7"
             (Some " 10.0.0.2") [] Hnone Hfwd eq_refl).
  reflexivity.
Defined.

(** X11: two options, two entries. *)
Lemma AcceptedLanguages_one_per_option_witness :
  length (AcceptedLanguages "Accept-Language" id language_header false)
  = 2%nat.
Proof.
  destruct (AcceptedLanguages_one_per_option "Accept-Language" id
              language_header false) as (_ & Hlength & _).
  rewrite Hlength.
  - vm_compute. reflexivity.
  - vm_compute. discriminate.
Defined.

(** X12: the entry for [fr ;q=0.8]. *)
Lemma AcceptedLanguages_entries_trimmed_witness :
  has_byte semicolonByte "fr" = false /\
  has_byte commaByte "fr" = false /\
  starts_with spaceByte "fr" = false /\
  ends_with spaceByte "fr" = false.
Proof.
  apply (AcceptedLanguages_entries_trimmed "Accept-Language" id
           language_header "fr").
  assert (Hrun : AcceptedLanguages "Accept-Language" id language_header false
                 = ["en-US"; "fr"]) by (vm_compute; reflexivity).
  rewrite Hrun. right. left.
Defined.

(** X13: the header [en-US, fr ;q=0.8]. *)
Lemma AcceptedLanguages_reads_rendered_witness :
  AcceptedLanguages "Accept-Language" id language_header false
  = ["en-US"; "fr"].
Proof.
  apply (AcceptedLanguages_reads_rendered "Accept-Language" id language_header
           [mkOption 0 "en-US" 0 None; mkOption 1 "fr" 1 (Some "q=0.8")]).
  - discriminate.
  - repeat constructor.
  - vm_compute. reflexivity.
Defined.

(** X14: a value that cannot be marshalled. *)
Lemma marshal_error_writes_nothing_witness :
  JSON marshal_fails write_body 200 tt (reset blank_writer)
  = (reset blank_writer, Some "unsupported type").
Proof.
  destruct (marshal_error_writes_nothing marshal_fails marshal_fails
              write_body 200 tt "callback" "unsupported type"
              (reset blank_writer)) as [Hjson _].
  destruct (Hjson eq_refl) as [Hrun _]. exact Hrun.
Defined.

Lemma write_body_committed (b : string) (r : Response) :
  committed r = true ->
  write_body b r = (mkResponse (header r) (status r) true (body r ++ [b]), None).
Proof.
  intros Hc. unfold write_body, Write, WriteHeader. rewrite Hc. simpl.
  rewrite Hc. reflexivity.
Qed.

(** X15: the body of a JSONP answer. *)
Lemma JSONP_writes_in_order_witness :
  exists r',
    JSONP marshal_empty write_body 200 tt "callback" (reset blank_writer)
      = (r', None) /\
    body r' = ["callback("; "{}"; ");"] /\
    status r' = 200.
Proof.
  destruct (JSONP_writes_in_order marshal_empty write_body 200 tt "callback"
              "{}" (reset blank_writer) eq_refl)
    as (r0 & _ & Hcommitted & Hstatus & Hbody & Hrun).
  rewrite Hrun.
  rewrite (write_body_committed _ r0 Hcommitted).
  rewrite write_body_committed by reflexivity.
  rewrite write_body_committed by reflexivity.
  eexists. split; [reflexivity|]. simpl.
  rewrite Hbody, (Hstatus eq_refl). split; reflexivity.
Defined.

(** X17: the 405 handler on a context just reset. *)
Lemma methodNotAllowedHandler_needs_methods_witness :
  methodNotAllowedHandler range_elements (ret tt) (mkMachine fresh_ctx tt)
  = Panicked TypeAssertion (mkMachine fresh_ctx tt).
Proof.
  apply (methodNotAllowedHandler_needs_methods range_elements (ret tt)
           (mkMachine fresh_ctx tt)).
  intros methods. discriminate.
Defined.

(** X18: [Allow] on [DELETE /widgets], in the order of the [range]. *)
Lemma methodNotAllowedHandler_appends_witness :
  exists m',
    methodNotAllowedHandler range_elements (ret tt) (mkMachine widgets_ctx tt)
      = Returned tt m' /\
    values_of (header (response (ctx m'))) "Allow"
      = range_elements widgets_methods.
Proof.
  destruct (methodNotAllowedHandler_appends range_elements (ret tt)
              (mkMachine widgets_ctx tt) widgets_methods eq_refl)
    as (m' & Hrun & Hallow & _).
  exists m'. split; [exact Hrun|]. rewrite Hallow. reflexivity.
Defined.
